(** * scrapeyourcity: the snapshot store of [main.go]

    [run] keeps three SQLite tables: [contents] (one row per distinct page
    body, keyed by the base62 SHA-224 sum of the formatted HTML), [projects]
    (one row per project URL) and [project_observations] (one row per
    crawl of a project).  This development embeds the three SQL statements
    of the transaction in [run], the transaction itself, the discovery
    filter and the link rewriting, and proves the properties the
    specification states about them. *)

From Stdlib Require Import ZArith List String Ascii Bool Lia Sorted.
Import ListNotations.

Open Scope string_scope.
Open Scope Z_scope.

(** ** Errors

    Every fallible call of [main.go] returns a Go [error]; the model keeps
    the origin of the error. *)

Inductive error : Type :=
| ErrStorage      (* a database call reported an I/O error *)
| ErrConstraint   (* SQLite: FOREIGN KEY constraint failed *)
| ErrTxDone       (* database/sql: transaction has already been committed or rolled back *)
| ErrTransport    (* http.DefaultClient.Do or goquery.NewDocumentFromReader failed *)
| ErrConvert      (* htmltomarkdown.ConvertString failed *)
| ErrURL          (* url.Parse failed *)
| Panic.          (* not an error value: index out of range stops the program *)

Inductive result (A : Type) : Type :=
| OK (a : A)
| Err (e : error).

Arguments OK {A} a.
Arguments Err {A} e.

(** ** Tables keyed by rowid

    A table declared with [id INTEGER PRIMARY KEY] is stored by SQLite in
    rowid order.  A table is a list of rows in increasing rowid order. *)

Section Table.
Variable row : Type.
Variable rowid : row -> Z.

Definition ids (tbl : list row) : list Z := map rowid tbl.

(** A row inserted with a NULL id gets the largest rowid in use plus one,
    and 1 in an empty table.  (Rowids are 64-bit; at 2^63-1 SQLite picks
    an unused rowid at random, which the model leaves out.) *)
Definition next_rowid (tbl : list row) : Z :=
  match tbl with
  | [] => 1
  | r :: rest => fold_right Z.max (rowid r) (ids rest) + 1
  end.

Fixpoint insert_row (x : row) (tbl : list row) : list row :=
  match tbl with
  | [] => [x]
  | r :: rest =>
      if rowid x <? rowid r then x :: tbl else r :: insert_row x rest
  end.

Definition delete_where (c : row -> bool) (tbl : list row) : list row :=
  filter (fun r => negb (c r)) tbl.

(** The rows are in strictly increasing rowid order. *)
Definition keyed (tbl : list row) : Prop := StronglySorted Z.lt (ids tbl).

(** Replacing the row that has the rowid of [x]. *)
Definition put_row (x : row) (tbl : list row) : list row :=
  map (fun r => if rowid r =? rowid x then x else r) tbl.

(** [INSERT OR REPLACE]: the rows in conflict with the new row (same
    rowid, or same value in a UNIQUE column, as told by [clash]) are
    deleted, then the new row is inserted. *)
Definition insert_or_replace (clash : row -> bool) (x : row)
           (tbl : list row) : list row :=
  insert_row x
    (delete_where (fun r => (rowid r =? rowid x) || clash r) tbl).
End Table.

Arguments ids {row} rowid tbl.
Arguments next_rowid {row} rowid tbl.
Arguments insert_row {row} rowid x tbl.
Arguments delete_where {row} c tbl.
Arguments keyed {row} rowid tbl.
Arguments put_row {row} rowid x tbl.
Arguments insert_or_replace {row} rowid clash x tbl.

(** ** The schema (the three [CREATE TABLE] statements of [run]) *)

(** [contents (id INTEGER PRIMARY KEY, hash TEXT UNIQUE, html TEXT, markdown TEXT)] *)
Record contents_row : Type := {
  c_id : Z;
  c_hash : string;
  c_html : string;
  c_markdown : string
}.

(** [projects (id INTEGER PRIMARY KEY, url TEXT UNIQUE, title TEXT, state TEXT)] *)
Record projects_row : Type := {
  p_id : Z;
  p_url : string;
  p_title : string;
  p_state : string
}.

(** [project_observations (id INTEGER PRIMARY KEY,
      project_id INTEGER REFERENCES projects (id), t DATETIME,
      content_id INTEGER REFERENCES contents (id))].
    The two references are nullable; [t] is the instant as a number. *)
Record project_observations_row : Type := {
  o_id : Z;
  o_project_id : option Z;
  o_t : Z;
  o_content_id : option Z
}.

Record DB : Type := {
  contents : list contents_row;
  projects : list projects_row;
  project_observations : list project_observations_row
}.

Definition empty_db : DB :=
  {| contents := []; projects := []; project_observations := [] |}.

(** The [Project] struct of [run]. *)
Record Project : Type := {
  Title : string;
  State : string;
  URL : string;
  HTMLSum : string;
  HTML : string;
  Markdown : string
}.

(** The rows that the two upserts write. *)
Definition new_content (i : Z) (hash html markdown : string) : contents_row :=
  {| c_id := i; c_hash := hash; c_html := html; c_markdown := markdown |}.

Definition new_project (i : Z) (url title state : string) : projects_row :=
  {| p_id := i; p_url := url; p_title := title; p_state := state |}.

Definition new_observation (k : Z) (project_id : Z) (now : Z) (content_id : Z)
  : project_observations_row :=
  {| o_id := k;
     o_project_id := Some project_id;
     o_t := now;
     o_content_id := Some content_id |}.

(** ** Foreign keys

    The database is opened with [_pragma=foreign_keys(1)].  Both references
    are immediate and have no ON DELETE action: a statement fails, and is
    undone, when it leaves a child row whose parent it has removed, or when
    it inserts a child row whose parent is missing.  A NULL reference needs
    no parent. *)

Definition mem (k : Z) (l : list Z) : bool := existsb (Z.eqb k) l.

Definition parents_kept (before after : list Z) (refs : list (option Z)) : bool :=
  forallb (fun ref =>
             match ref with
             | None => true
             | Some k => implb (mem k before) (mem k after)
             end) refs.

Definition parent_exists (ref : option Z) (parents : list Z) : bool :=
  match ref with
  | None => true
  | Some k => mem k parents
  end.

(** ** The three statements of the transaction *)

(** [(SELECT id FROM contents WHERE hash = ?)]: NULL when no row matches. *)
Definition select_contents_id (h : string) (db : DB) : option Z :=
  option_map c_id (find (fun r => String.eqb (c_hash r) h) (contents db)).

(** [(SELECT id FROM projects WHERE url = ?)] *)
Definition select_projects_id (u : string) (db : DB) : option Z :=
  option_map p_id (find (fun r => String.eqb (p_url r) u) (projects db)).

Definition or_next {row} (rowid : row -> Z) (id : option Z) (tbl : list row) : Z :=
  match id with
  | Some i => i
  | None => next_rowid rowid tbl
  end.

(** [INSERT OR REPLACE INTO contents (id, hash, html, markdown)
     VALUES ((SELECT id FROM contents WHERE hash = ?), ?, ?, ?)]
    with the arguments [hash, hash, html, markdown]. *)
Definition insert_or_replace_contents (hash html markdown : string) (db : DB)
  : result DB :=
  let new := {| c_id := or_next c_id (select_contents_id hash db) (contents db);
                c_hash := hash;
                c_html := html;
                c_markdown := markdown |} in
  let tbl := insert_or_replace c_id
               (fun r => String.eqb (c_hash r) hash) new (contents db) in
  if parents_kept (ids c_id (contents db)) (ids c_id tbl)
       (map o_content_id (project_observations db))
  then OK {| contents := tbl;
             projects := projects db;
             project_observations := project_observations db |}
  else Err ErrConstraint.

(** [INSERT OR REPLACE INTO projects (id, url, title, state)
     VALUES ((SELECT id FROM projects WHERE url = ?), ?, ?, ?)]
    with the arguments [url, url, title, state]. *)
Definition insert_or_replace_projects (url title state : string) (db : DB)
  : result DB :=
  let new := {| p_id := or_next p_id (select_projects_id url db) (projects db);
                p_url := url;
                p_title := title;
                p_state := state |} in
  let tbl := insert_or_replace p_id
               (fun r => String.eqb (p_url r) url) new (projects db) in
  if parents_kept (ids p_id (projects db)) (ids p_id tbl)
       (map o_project_id (project_observations db))
  then OK {| contents := contents db;
             projects := tbl;
             project_observations := project_observations db |}
  else Err ErrConstraint.

(** [INSERT INTO project_observations (project_id, t, content_id)
     VALUES ((SELECT id FROM projects WHERE url = ?), ?,
             (SELECT id FROM contents WHERE hash = ?))]
    with the arguments [url, now, hash]. *)
Definition insert_project_observations (url : string) (now : Z) (hash : string)
           (db : DB) : result DB :=
  let new := {| o_id := next_rowid o_id (project_observations db);
                o_project_id := select_projects_id url db;
                o_t := now;
                o_content_id := select_contents_id hash db |} in
  if parent_exists (o_project_id new) (ids p_id (projects db))
     && parent_exists (o_content_id new) (ids c_id (contents db))
  then OK {| contents := contents db;
             projects := projects db;
             project_observations :=
               insert_row o_id new (project_observations db) |}
  else Err ErrConstraint.

(** ** The transaction

    [db.Begin] opens a transaction on the database file; [tx.Exec] runs a
    statement on the transaction's working copy; [tx.Commit] makes the
    working copy the file's contents; [tx.Rollback] throws the working
    copy away, and does nothing once the transaction has ended.  Each call
    may also report an I/O error, which leaves the working copy as it was. *)

Inductive step : Type :=
| Begin | ExecContents | ExecProjects | ExecObservations | Commit.

Record session : Type := {
  file : DB;            (* what is committed *)
  tx : option DB        (* the working copy of the open transaction *)
}.

(** Computations on a session that may fail. *)
Definition M (A : Type) : Type := session -> result A * session.

Definition ret {A} (a : A) : M A := fun s => (OK a, s).

Definition bind {A B} (m : M A) (k : A -> M B) : M B :=
  fun s =>
    match m s with
    | (OK a, s') => k a s'
    | (Err e, s') => (Err e, s')
    end.

Notation "m ;; k" := (bind m (fun _ => k))
  (at level 61, right associativity).

Definition db_Begin (fault : step -> bool) : M unit :=
  fun s =>
    if fault Begin then (Err ErrStorage, s)
    else (OK tt, {| file := file s; tx := Some (file s) |}).

Definition tx_Exec (fault : step -> bool) (st : step)
           (stmt : DB -> result DB) : M unit :=
  fun s =>
    match tx s with
    | None => (Err ErrTxDone, s)
    | Some w =>
        if fault st then (Err ErrStorage, s)
        else match stmt w with
             | OK w' => (OK tt, {| file := file s; tx := Some w' |})
             | Err e => (Err e, s)
             end
    end.

Definition tx_Commit (fault : step -> bool) : M unit :=
  fun s =>
    match tx s with
    | None => (Err ErrTxDone, s)
    | Some w =>
        if fault Commit then (Err ErrStorage, {| file := file s; tx := None |})
        else (OK tt, {| file := w; tx := None |})
    end.

Definition tx_Rollback (s : session) : session :=
  {| file := file s; tx := None |}.

(** The function literal of [run] that holds the transaction.  The
    statements get [p.HTMLSum, p.HTMLSum, p.HTML, p.Markdown], then
    [p.URL, p.URL, p.Title, p.State], then [p.URL, time.Now(), p.HTMLSum].
    The deferred [tx.Rollback()] runs on every way out once [db.Begin]
    has succeeded. *)
Definition upsert_tx (fault : step -> bool) (p : Project) (now : Z)
  : session -> option error * session :=
  fun s =>
    match db_Begin fault s with
    | (Err e, s0) => (Some e, s0)
    | (OK _, s0) =>
        let '(r, s1) :=
          (tx_Exec fault ExecContents
             (insert_or_replace_contents (HTMLSum p) (HTML p) (Markdown p)) ;;
           tx_Exec fault ExecProjects
             (insert_or_replace_projects (URL p) (Title p) (State p)) ;;
           tx_Exec fault ExecObservations
             (insert_project_observations (URL p) now (HTMLSum p)) ;;
           tx_Commit fault) s0 in
        let s2 := tx_Rollback s1 in
        match r with
        | OK _ => (None, s2)
        | Err e => (Some e, s2)
        end
    end.

(** One atomic-upsert unit on a database with no open transaction. *)
Definition upsert_unit (fault : step -> bool) (p : Project) (now : Z)
           (db : DB) : option error * DB :=
  let '(e, s) := upsert_tx fault p now {| file := db; tx := None |} in
  (e, file s).

Definition no_fault : step -> bool := fun _ => false.

(** ** Pages

    A parsed page, as [golang.org/x/net/html] builds it: text, comments, and
    elements with a tag, attributes in order and children. *)

#[local] Unset Elimination Schemes.
Inductive node : Type :=
| Text (data : string)
| Comment (data : string)
| Element (tag : string) (attr : list (string * string)) (kids : list node).
#[local] Set Elimination Schemes.

Record document : Type := { top : list node }.

(** A goquery [Selection] is a list of nodes of the page.  [run] updates
    the page through the selections it gets from [sels[0].Find]: the
    model keeps the nodes of [sels[0]] with their subtrees, and an update
    of the nodes found under them is an update of these subtrees.  What
    [run] reads back ([Find], [Text], [Html]) looks only below the nodes of
    [sels[0]], so a node of [sels[0]] that lies under another one is read
    the same way in both places. *)
Definition Selection : Type := list node.

Definition children (n : node) : list node :=
  match n with
  | Element _ _ kids => kids
  | _ => []
  end.

Definition attrs (n : node) : list (string * string) :=
  match n with
  | Element _ a _ => a
  | _ => []
  end.

(** A node followed by its descendants, in document order. *)
Fixpoint subtree (n : node) : list node :=
  n :: match n with
       | Element _ _ kids => flat_map subtree kids
       | _ => []
       end.

Definition descendants (n : node) : list node :=
  flat_map subtree (children n).

(** *** Attributes *)

Fixpoint get_attr (k : string) (a : list (string * string)) : option string :=
  match a with
  | [] => None
  | (k', v) :: rest => if String.eqb k' k then Some v else get_attr k rest
  end.

(** [SetAttr]: the first attribute of that name gets the value; without
    one the attribute is added at the end. *)
Fixpoint set_attr (k v : string) (a : list (string * string))
  : list (string * string) :=
  match a with
  | [] => [(k, v)]
  | (k', v') :: rest =>
      if String.eqb k' k then (k', v) :: rest else (k', v') :: set_attr k v rest
  end.

(** [RemoveAttr]: the first attribute of that name is overwritten by the
    last attribute, and the list loses its last place. *)
Fixpoint remove_attr (k : string) (a : list (string * string))
  : list (string * string) :=
  match a with
  | [] => []
  | (k', v') :: rest =>
      if String.eqb k' k
      then match rest with
           | [] => []
           | _ => last rest (k', v') :: removelast rest
           end
      else (k', v') :: remove_attr k rest
  end.

Definition attr_or (k default : string) (a : list (string * string)) : string :=
  match get_attr k a with
  | Some v => v
  | None => default
  end.

(** [AttrOr]: the attribute of the first node of the selection. *)
Definition AttrOr (k default : string) (s : Selection) : string :=
  match s with
  | [] => default
  | n :: _ => attr_or k default (attrs n)
  end.

(** *** Selectors

    The compound selectors that [run] passes to [Find], as cascadia
    compiles them. *)

Inductive selector : Type :=
| ByTag (t : string)                 (* t *)
| ById (i : string)                  (* #i *)
| ByClass (c : string)               (* .c *)
| HasAttr (k : string)               (* [k] *)
| AttrIs (k v : string)              (* [k=v] *)
| Both (a b : selector).             (* ab *)

Definition is_space (c : ascii) : bool :=
  existsb (Ascii.eqb c) [" "; "009"; "010"; "012"; "013"]%char.

(** The pieces of a string between white-space characters. *)
Fixpoint split_ws (s : string) : list string :=
  match s with
  | EmptyString => [EmptyString]
  | String c rest =>
      if is_space c then EmptyString :: split_ws rest
      else match split_ws rest with
           | [] => [String c EmptyString]
           | t :: ts => String c t :: ts
           end
  end.

Definition any_attr (k : string) (f : string -> bool)
           (a : list (string * string)) : bool :=
  existsb (fun kv => String.eqb (fst kv) k && f (snd kv)) a.

Fixpoint matches_attrs (s : selector) (t : string)
         (a : list (string * string)) : bool :=
  match s with
  | ByTag t' => String.eqb t t'
  | ById i => any_attr "id" (String.eqb i) a
  | ByClass c => any_attr "class" (fun v => existsb (String.eqb c) (split_ws v)) a
  | HasAttr k => any_attr k (fun _ => true) a
  | AttrIs k v => any_attr k (String.eqb v) a
  | Both s1 s2 => matches_attrs s1 t a && matches_attrs s2 t a
  end.

(** Only elements match. *)
Definition matches (s : selector) (n : node) : bool :=
  match n with
  | Element t a _ => matches_attrs s t a
  | _ => false
  end.

Definition found_in (s : selector) (l : list node) : list node :=
  flat_map (fun c => filter (matches s) (subtree c)) l.

(** [Find] looks below the nodes of the selection, not at them.  (A node
    found from two nodes of the selection is kept once by goquery; [run]
    either takes the first node found or visits every node found once.) *)
Definition Find (s : selector) (sel : Selection) : Selection :=
  flat_map (fun r => found_in s (children r)) sel.

(** [doc.Find] returns a pointer to a new selection, never nil. *)
Definition doc_Find (s : selector) (doc : document) : option Selection :=
  Some (found_in s (top doc)).

Definition First (sel : Selection) : Selection := firstn 1 sel.

Fixpoint node_text (n : node) : string :=
  match n with
  | Text data => data
  | Comment _ => EmptyString
  | Element _ _ kids =>
      fold_right (fun k acc => String.append (node_text k) acc) EmptyString kids
  end.

Definition Text_of (sel : Selection) : string :=
  String.concat EmptyString (map node_text sel).

(** *** Updates of the nodes found below a selection *)

(** Every node of the subtree that [m] matches, the root too, is cut out. *)
Fixpoint prune (m : node -> bool) (n : node) : node :=
  match n with
  | Element t a kids =>
      Element t a (flat_map (fun k => if m k then [] else [prune m k]) kids)
  | _ => n
  end.

(** [sels[0].Find(s).Remove()] *)
Definition Find_Remove (s : selector) (sel : Selection) : Selection :=
  map (fun r =>
         match r with
         | Element t a kids =>
             Element t a
               (flat_map (fun k => if matches s k then []
                                   else [prune (matches s) k]) kids)
         | _ => r
         end) sel.

(** Every node of the subtree that [m] matches, the root too, gets its
    attributes changed by [f]. *)
Fixpoint retouch (m : node -> bool)
         (f : list (string * string) -> list (string * string))
         (n : node) : node :=
  match n with
  | Element t a kids =>
      Element t (if m n then f a else a) (map (retouch m f) kids)
  | _ => n
  end.

(** [for _, x := range sels[0].Find(s).EachIter() { ... x ... }] where
    the body changes the attributes of [x] by [f]. *)
Definition Find_Each (s : selector)
           (f : list (string * string) -> list (string * string))
           (sel : Selection) : Selection :=
  map (fun r =>
         match r with
         | Element t a kids => Element t a (map (retouch (matches s) f) kids)
         | _ => r
         end) sel.

(** ** The libraries and the world

    The Go libraries that [run] calls and that the model does not look
    into.  [Sum224] is [crypto/sha256.Sum224], [EncodeToString] is
    [base62.EncodeToString], [Render] is [html.Render] as [Selection.Html]
    uses it. *)

Class Libraries : Type := {
  url_value : Type;
  url_Parse : string -> option url_value;
  ResolveReference : url_value -> url_value -> url_value;
  url_String : url_value -> string;
  Render : node -> string;
  gohtml_Format : string -> string;
  ConvertString : string -> option string;
  Sum224 : list Byte.byte -> list Byte.byte;
  EncodeToString : list Byte.byte -> string
}.

(** What [run] meets outside: the answer to its [n]-th request, the clock
    and the faults of the storage during the transaction of the [i]-th
    project, and the first error, if any, of [sql.Open] and of the three
    [CREATE TABLE IF NOT EXISTS]. *)
Record World : Type := {
  http_Get : nat -> string -> option document;
  Now : nat -> Z;
  disk : nat -> step -> bool;
  setup : option error
}.

Section Run.
Context {L : Libraries}.

Definition projects_page : string :=
  "https://www.shapeyourcityhalifax.ca/projects".

Definition landing_page : string :=
  "https://www.shapeyourcityhalifax.ca/shape-your-city-halifax".

(** The closure [abs] of [run]. *)
Definition abs (projectsURL : url_value) (s : string) : string :=
  match url_Parse s with
  | None => EmptyString
  | Some rel => url_String (ResolveReference projectsURL rel)
  end.

(** [Selection.Html]: the children of the first node, rendered. *)
Definition Html (sel : Selection) : string :=
  match sel with
  | [] => EmptyString
  | n :: _ => String.concat EmptyString (map Render (children n))
  end.

(** [sha256.Sum224([]byte(html))] then [base62.EncodeToString(sum[:])]. *)
Definition fingerprint (html : string) : string :=
  EncodeToString (Sum224 (list_byte_of_string html)).

(** *** [get] *)

Fixpoint get_loop (doc : document) (selectors : list selector)
         (sels : list Selection) : result (list Selection) :=
  match selectors with
  | [] => OK sels
  | sel :: rest =>
      match doc_Find sel doc with
      | None => OK []
      | Some s => get_loop doc rest (sels ++ [s])%list
      end
  end.

Definition get (w : World) (n : nat) (u : string)
           (selectors : list selector) : result (list Selection) :=
  match http_Get w n u with
  | None => Err ErrTransport
  | Some doc => get_loop doc selectors []
  end.

(** *** The discovery loop of [run] *)

Definition sel_project_tile : selector := ByClass "project-tile".
Definition sel_project_tile_link : selector :=
  Both (ByTag "a") (ByClass "project-tile__link").
Definition sel_yield : selector := ById "yield".

Definition Contains (l : list string) (s : string) : bool :=
  existsb (String.eqb s) l.

Definition tile_project (abs : string -> string) (project : node) : Project :=
  {| Title := EmptyString;
     State := AttrOr "data-state" EmptyString [project];
     URL := abs (AttrOr "href" EmptyString
                   (Find sel_project_tile_link [project]));
     HTMLSum := EmptyString;
     HTML := EmptyString;
     Markdown := EmptyString |}.

Definition discover (abs : string -> string) (onlyURLs : list string)
           (tiles : Selection) : list Project :=
  fold_left
    (fun projects project =>
       let p := tile_project abs project in
       if String.eqb (URL p) landing_page then projects
       else if (0 <? List.length onlyURLs)%nat
               && negb (Contains onlyURLs (URL p)) then projects
       else (projects ++ [p])%list)
    tiles [].

(** *** The body of the crawl loop, up to the transaction *)

Definition removes : list selector :=
  [ ById "map-layers";
    Both (ByTag "div") (HasAttr "data-markers");
    Both (ByTag "input") (AttrIs "name" "authenticity_token");
    Both (ByTag "div") (ByClass "widget_follow_project");
    Both (ByTag "div") (ByClass "widget_related_projects");
    ById "qanda_description_text";
    ByTag "script";
    ByClass "SocialSharing";
    AttrIs "name" "a_comment_body" ].

Definition strip (sels0 : Selection) : Selection :=
  let s1 := fold_left (fun sel s => Find_Remove s sel) removes sels0 in
  let s2 := Find_Each (ByTag "input") (remove_attr "id") s1 in
  Find_Each (ByTag "label") (remove_attr "for") s2.

(** The two loops that make links absolute. *)
Definition absolutize (abs : string -> string) (sels0 : Selection) : Selection :=
  let s1 := Find_Each (ByTag "a")
              (fun a => set_attr "href" (abs (attr_or "href" EmptyString a)) a)
              sels0 in
  Find_Each (ByTag "img")
    (fun a => set_attr "src" (abs (attr_or "src" EmptyString a)) a)
    s1.

Definition scrape (abs : string -> string) (p : Project)
           (sels0 : Selection) : result Project :=
  let sels0 := absolutize abs (strip sels0) in
  let title := Text_of (First (Find (ByTag "h1") sels0)) in
  let html := gohtml_Format (Html sels0) in
  match ConvertString html with
  | None => Err ErrConvert
  | Some markdown =>
      OK {| Title := title;
            State := State p;
            URL := URL p;
            HTMLSum := fingerprint html;
            HTML := html;
            Markdown := markdown |}
  end.

(** *** The crawl loop and [run]

    [sels[0]] on an empty slice is a run-time panic. *)

Fixpoint crawl (w : World) (abs : string -> string) (i : nat)
         (projects : list Project) (db : DB) : option error * DB :=
  match projects with
  | [] => (None, db)
  | p :: rest =>
      match get w (S i) (URL p) [sel_yield] with
      | Err e => (Some e, db)
      | OK [] => (Some Panic, db)
      | OK (sels0 :: _) =>
          match scrape abs p sels0 with
          | Err e => (Some e, db)
          | OK p' =>
              match upsert_unit (disk w i) p' (Now w i) db with
              | (Some e, db') => (Some e, db')
              | (None, db') => crawl w abs (S i) rest db'
              end
          end
      end
  end.

Definition run (w : World) (onlyURLs : list string) (db : DB)
  : option error * DB :=
  match setup w with
  | Some e => (Some e, db)
  | None =>
      match url_Parse projects_page with
      | None => (Some ErrURL, db)
      | Some projectsURL =>
          match get w 0 projects_page [sel_project_tile] with
          | Err e => (Some e, db)
          | OK [] => (Some Panic, db)
          | OK (tiles :: _) =>
              crawl w (abs projectsURL) 0
                (discover (abs projectsURL) onlyURLs tiles) db
          end
      end
  end.

(** [strings.Split(s, ",")] *)
Fixpoint split_comma (s : string) : list string :=
  match s with
  | EmptyString => [EmptyString]
  | String c rest =>
      if Ascii.eqb c "," then EmptyString :: split_comma rest
      else match split_comma rest with
           | [] => [String c EmptyString]
           | t :: ts => String c t :: ts
           end
  end.

(** [main], with the value of the flag [-urls]; the database is the file
    named by the flag [-db]. *)
Definition main (w : World) (urlsRaw : string) (db : DB) : option error * DB :=
  let urls := if String.eqb urlsRaw EmptyString then [] else split_comma urlsRaw in
  run w urls db.
End Run.

(** ** Sequences of calls *)

Section Calls.
Context {L : Libraries}.

(** The content store's put, as [run] does it for one page body: the
    sum of the body, then the first statement of the transaction. *)
Definition put (html markdown : string) (db : DB) : string * result DB :=
  let sum := fingerprint html in
  (sum, insert_or_replace_contents sum html markdown db).

(** [n] puts of the same body, one after the other: the sums returned
    and the database at the end. *)
Fixpoint put_n (n : nat) (html markdown : string) (db : DB)
  : list string * result DB :=
  match n with
  | O => ([], OK db)
  | S k =>
      let (sum, r) := put html markdown db in
      match r with
      | Err e => ([sum], Err e)
      | OK db' =>
          let (sums, r') := put_n k html markdown db' in
          (sum :: sums, r')
      end
  end.
End Calls.

(** Upserts of the registry, one after the other; a call is
    [(url, title, state)]. *)
Fixpoint upserts (calls : list (string * string * string)) (db : DB)
  : result DB :=
  match calls with
  | [] => OK db
  | (url, title, state) :: rest =>
      match insert_or_replace_projects url title state db with
      | OK db' => upserts rest db'
      | Err e => Err e
      end
  end.

(** The title and state of the last call for [url]. *)
Definition last_call (url : string) (calls : list (string * string * string))
  : option (string * string) :=
  fold_left (fun acc c =>
               match c with
               | (u, title, state) =>
                   if String.eqb u url then Some (title, state) else acc
               end) calls None.

(** The rows of the registry for [url]. *)
Definition projects_of (url : string) (db : DB) : list projects_row :=
  filter (fun r => String.eqb (p_url r) url) (projects db).

(** The rows of the content store for [hash]. *)
Definition contents_of (hash : string) (db : DB) : list contents_row :=
  filter (fun r => String.eqb (c_hash r) hash) (contents db).

(** The observations of the project at [url]:
    [SELECT * FROM project_observations
     WHERE project_id = (SELECT id FROM projects WHERE url = ?)]. *)
Definition observations_of (url : string) (db : DB)
  : list project_observations_row :=
  match select_projects_id url db with
  | None => []
  | Some i =>
      filter (fun o => match o_project_id o with
                       | Some k => k =? i
                       | None => false
                       end) (project_observations db)
  end.

(** Atomic-upsert units one after the other, each with its own faults,
    project and clock reading: the number of units for [url] that
    returned no error, and the database at the end. *)
Record unit_call : Type := {
  u_fault : step -> bool;
  u_project : Project;
  u_now : Z
}.

Fixpoint run_units (url : string) (us : list unit_call) (db : DB) : nat * DB :=
  match us with
  | [] => (O, db)
  | u :: rest =>
      let (e, db') := upsert_unit (u_fault u) (u_project u) (u_now u) db in
      let (n, db'') := run_units url rest db' in
      (match e with
       | None => if String.eqb (URL (u_project u)) url then S n else n
       | Some _ => n
       end, db'')
  end.

(** ** Consistent databases

    What SQLite keeps true of the three tables: rows in rowid order
    without repeated rowid, UNIQUE on [contents.hash] and [projects.url],
    and the two foreign keys. *)
Record wf (db : DB) : Prop := {
  wf_contents : keyed c_id (contents db);
  wf_projects : keyed p_id (projects db);
  wf_observations : keyed o_id (project_observations db);
  wf_hash : NoDup (map c_hash (contents db));
  wf_url : NoDup (map p_url (projects db));
  wf_project_id :
    forall o k, In o (project_observations db) ->
                o_project_id o = Some k -> In k (ids p_id (projects db));
  wf_content_id :
    forall o k, In o (project_observations db) ->
                o_content_id o = Some k -> In k (ids c_id (contents db))
}.

(** ** Sample data

    Stand-ins for the libraries, small enough to compute with, and a few
    projects and pages. *)
Module Sample.
Definition site : string := "https://www.shapeyourcityhalifax.ca".

(** A reference that begins with a colon does not parse. *)
Definition parse (s : string) : option string :=
  match s with
  | String ":" _ => None
  | _ => Some s
  end.

Definition resolve (base rel : string) : string :=
  match rel with
  | EmptyString => base
  | String "/" _ => String.append site rel
  | _ => if String.prefix "https://" rel then rel
         else String.append site (String "/" rel)
  end.

Fixpoint render (n : node) : string :=
  match n with
  | Text data => data
  | Comment data => String.append "<!--" (String.append data "-->")
  | Element t a kids =>
      String.append "<"
        (String.append t
           (String.append
              (fold_right (fun kv acc =>
                             String.append " "
                               (String.append (fst kv)
                                  (String.append "='"
                                     (String.append (snd kv)
                                        (String.append "'" acc)))))
                          ">" a)
              (String.append
                 (fold_right (fun k acc => String.append (render k) acc)
                             EmptyString kids)
                 (String.append "</" (String.append t ">")))))
  end.

Definition libs : Libraries :=
  {| url_value := string;
     url_Parse := parse;
     ResolveReference := resolve;
     url_String := fun u => u;
     Render := render;
     gohtml_Format := fun s => s;
     ConvertString := fun s => Some s;
     Sum224 := fun b => b;
     EncodeToString := string_of_list_byte |}.

Definition pA : Project :=
  {| Title := "Main Street"; State := "published"; URL := "u1";
     HTMLSum := "hA"; HTML := "<p>A</p>"; Markdown := "A" |}.

(** The same project with another body. *)
Definition pB : Project :=
  {| Title := "Main Street"; State := "published"; URL := "u1";
     HTMLSum := "hB"; HTML := "<p>B</p>"; Markdown := "B" |}.

Definition pC : Project :=
  {| Title := "Park"; State := "archived"; URL := "u2";
     HTMLSum := "hA"; HTML := "<p>A</p>"; Markdown := "A" |}.

(** The database after one unit for [pA] at time 10. *)
Definition db1 : DB :=
  {| contents := [new_content 1 "hA" "<p>A</p>" "A"];
     projects := [new_project 1 "u1" "Main Street" "published"];
     project_observations := [new_observation 1 1 10 1] |}.

Definition fail_at (st : step) : step -> bool :=
  fun s => match st, s with
           | Begin, Begin | ExecContents, ExecContents
           | ExecProjects, ExecProjects
           | ExecObservations, ExecObservations | Commit, Commit => true
           | _, _ => false
           end.
End Sample.

(** Units for the examples: [pA] again, [pB] with a failing commit, [pC],
    and [pB]. *)
Definition sample_units : list unit_call :=
  [ {| u_fault := no_fault; u_project := Sample.pA; u_now := 11 |};
    {| u_fault := Sample.fail_at Commit; u_project := Sample.pB; u_now := 12 |};
    {| u_fault := no_fault; u_project := Sample.pC; u_now := 13 |};
    {| u_fault := no_fault; u_project := Sample.pB; u_now := 14 |} ].

(** The entry that the discovery loop keeps. *)
Definition kept (onlyURLs : list string) (p : Project) : bool :=
  negb (String.eqb (URL p) landing_page)
  && match onlyURLs with
     | [] => true
     | _ => Contains onlyURLs (URL p)
     end.

(** [d'] is [d] after a loop that changes by [f] the attributes of the
    nodes that [m] matches. *)
Definition touched (m : node -> bool)
           (f : list (string * string) -> list (string * string))
           (d d' : node) : Prop :=
  match d, d' with
  | Element t a _, Element t' a' _ => t' = t /\ a' = if m d then f a else a
  | Text s, Text s' => s' = s
  | Comment s, Comment s' => s' = s
  | _, _ => False
  end.

(** [d'] is [d] with its link made absolute: an anchor has the [href],
    and an image the [src], that [abs] gives for the value it had, or for
    the empty string when it had none; other elements keep their
    attributes. *)
Definition linked (abs : string -> string) (d d' : node) : Prop :=
  match d, d' with
  | Element t a _, Element t' a' _ =>
      t' = t /\
      (t = "a" -> get_attr "href" a' = Some (abs (attr_or "href" EmptyString a))) /\
      (t = "img" -> get_attr "src" a' = Some (abs (attr_or "src" EmptyString a))) /\
      (t <> "a" -> t <> "img" -> a' = a)
  | Text s, Text s' => s' = s
  | Comment s, Comment s' => s' = s
  | _, _ => False
  end.

(** A project page with its content, and one without the element that
    holds the content. *)
Definition sample_yield : node :=
  Element "div" [("id", "yield")]
    [ Element "h1" [] [Text "Main Street"];
      Element "a" [("class", "more"); ("href", "/main-street/news")] [Text "news"];
      Element "img" [("alt", "map")] [];
      Element "a" [("href", ":8080")] [Text "broken"];
      Element "script" [] [Text "track()"] ].

Definition sample_page : document :=
  {| top := [Element "html" [] [Element "body" [] [sample_yield]]] |}.

Definition sample_page_without_yield : document :=
  {| top := [Element "html" []
               [Element "body" []
                  [Element "p" [] [Text "Service unavailable"]]]] |}.

(** The project that [scrape] returns for a page without the element. *)
Definition blank_project {L : Libraries} (p : Project) (markdown : string)
  : Project :=
  {| Title := EmptyString;
     State := State p;
     URL := URL p;
     HTMLSum := fingerprint (gohtml_Format EmptyString);
     HTML := gohtml_Format EmptyString;
     Markdown := markdown |}.

(** A world where every request is answered by the page without the
    element, and nothing fails. *)
Definition sample_world : World :=
  {| http_Get := fun _ _ => Some sample_page_without_yield;
     Now := fun i => Z.of_nat i;
     disk := fun _ => no_fault;
     setup := None |}.

(** Every contents row is stored under the sum of its body. *)
Definition addressed {L : Libraries} (db : DB) : Prop :=
  forall r, In r (contents db) -> c_hash r = fingerprint (c_html r).

Definition sample_calls : list (string * string * string) :=
  [ ("u1", "Main St", "draft");
    ("u2", "Park", "archived");
    ("u1", "Main Street", "published") ].

(** A projects page with three tiles, the second for the landing page. *)
Definition sample_projects_page : document :=
  {| top :=
       [Element "html" []
          [Element "body" []
             [ Element "div"
                 [("class", "project-tile wide"); ("data-state", "published")]
                 [Element "a" [("class", "project-tile__link");
                               ("href", "/main-street")] [Text "Main Street"]];
               Element "div"
                 [("class", "project-tile"); ("data-state", "published")]
                 [Element "a" [("class", "project-tile__link");
                               ("href", "/shape-your-city-halifax")] [Text "Home"]];
               Element "div"
                 [("class", "project-tile"); ("data-state", "archived")]
                 [Element "a" [("class", "project-tile__link");
                               ("href", "park")] [Text "Park"]] ]]] |}.

(** The projects page, then the page with content, then pages without
    the element. *)
Definition sample_crawl : World :=
  {| http_Get := fun n _ =>
                   match n with
                   | O => Some sample_projects_page
                   | 1%nat => Some sample_page
                   | _ => Some sample_page_without_yield
                   end;
     Now := fun i => Z.of_nat i;
     disk := fun _ => no_fault;
     setup := None |}.

(** ** Units without a fault *)

Definition all_steps : list step :=
  [Begin; ExecContents; ExecProjects; ExecObservations; Commit].

(** No call of the transaction meets a fault of the storage. *)
Definition faultless (fault : step -> bool) : bool :=
  forallb (fun st => negb (fault st)) all_steps.

(** The units for [url] that meet no fault of the storage. *)
Definition sound_units (url : string) (us : list unit_call) : list unit_call :=
  filter (fun c => String.eqb (URL (u_project c)) url && faultless (u_fault c)) us.

(** ** Notions for the properties of whole runs *)

(** Nothing that [s] matches lies below [r]. *)
Definition clean (s : selector) (r : node) : Prop :=
  Forall (fun d => matches s d = false) (descendants r).

(** The attribute names that a selector looks at. *)
Fixpoint keys_of (s : selector) : list string :=
  match s with
  | ByTag _ => []
  | ById _ => ["id"]
  | ByClass _ => ["class"]
  | HasAttr k => [k]
  | AttrIs k _ => [k]
  | Both s1 s2 => (keys_of s1 ++ keys_of s2)%list
  end.

(** [db'] has every sum and every URL of [db] under the rowid it had, and
    its log begins with the log of [db]. *)
Definition extends (db db' : DB) : Prop :=
  (forall h i, select_contents_id h db = Some i ->
               select_contents_id h db' = Some i) /\
  (forall u i, select_projects_id u db = Some i ->
               select_projects_id u db' = Some i) /\
  exists appended,
    project_observations db' = (project_observations db ++ appended)%list.

(** The projects page and the first project page are answered, the
    second project page is not. *)
Definition sample_outage : World :=
  {| http_Get := fun n _ =>
                   match n with
                   | O => Some sample_projects_page
                   | 1%nat => Some sample_page
                   | _ => None
                   end;
     Now := fun i => Z.of_nat i;
     disk := fun _ => no_fault;
     setup := None |}.

(** Every observation names its project and its content. *)
Definition no_null (db : DB) : Prop :=
  forall o, In o (project_observations db) ->
            o_project_id o <> None /\ o_content_id o <> None.

(** * Facts about tables *)

Section TableFacts.
Variable row : Type.
Variable rowid : row -> Z.

Lemma in_insert_row (x r : row) (tbl : list row) :
  In r (insert_row rowid x tbl) <-> r = x \/ In r tbl.
Proof.
  induction tbl as [|y tbl IH]; simpl.
  - intuition.
  - destruct (rowid x <? rowid y); simpl; rewrite ?IH; intuition.
Qed.

Lemma fold_max_ge (a : Z) (l : list Z) :
  a <= fold_right Z.max a l /\ forall k, In k l -> k <= fold_right Z.max a l.
Proof.
  induction l as [|b l [IH1 IH2]]; simpl.
  - split; [lia | tauto].
  - split; [lia |].
    intros k [<- | Hk]; [lia |]. specialize (IH2 k Hk). lia.
Qed.

Lemma next_rowid_above (tbl : list row) (r : row) :
  In r tbl -> rowid r < next_rowid rowid tbl.
Proof.
  destruct tbl as [|y tbl]; simpl; [tauto |].
  destruct (fold_max_ge (rowid y) (ids rowid tbl)) as [H1 H2].
  intros [<- | Hr]; [lia |].
  assert (rowid r <= fold_right Z.max (rowid y) (ids rowid tbl)).
  { apply H2. unfold ids. now apply in_map. }
  lia.
Qed.

Lemma next_rowid_fresh (tbl : list row) :
  ~ In (next_rowid rowid tbl) (ids rowid tbl).
Proof.
  unfold ids. intros H. apply in_map_iff in H as [r [Hr Hin]].
  apply next_rowid_above in Hin. lia.
Qed.

Lemma insert_row_last (x : row) (tbl : list row) :
  (forall r, In r tbl -> rowid r < rowid x) ->
  insert_row rowid x tbl = (tbl ++ [x])%list.
Proof.
  induction tbl as [|y tbl IH]; simpl; intros H; [reflexivity |].
  assert (Hy : rowid y < rowid x) by (apply H; now left).
  destruct (Z.ltb_spec (rowid x) (rowid y)); [lia |].
  f_equal. apply IH. intros r Hr. apply H. now right.
Qed.

Lemma keyed_cons (y : row) (tbl : list row) :
  keyed rowid (y :: tbl) <->
  keyed rowid tbl /\ forall r, In r tbl -> rowid y < rowid r.
Proof.
  unfold keyed, ids; simpl. split.
  - intros H. inversion H as [|a l Hs Hf]; subst. split; [assumption |].
    intros r Hr. rewrite Forall_forall in Hf. apply Hf. now apply in_map.
  - intros [Hs Hf]. constructor; [assumption |].
    rewrite Forall_forall. intros k Hk.
    apply in_map_iff in Hk as [r [<- Hr]]. now apply Hf.
Qed.

Lemma keyed_app_last (x : row) (tbl : list row) :
  keyed rowid tbl -> (forall r, In r tbl -> rowid r < rowid x) ->
  keyed rowid (tbl ++ [x]).
Proof.
  induction tbl as [|y tbl IH]; simpl; intros H Hx.
  - apply keyed_cons. split; [constructor | intros r []].
  - apply keyed_cons in H as [Hs Hf]. apply keyed_cons. split.
    + apply IH; [assumption |]. intros r Hr. apply Hx. now right.
    + intros r Hr. apply in_app_iff in Hr as [Hr | [<- | []]].
      * now apply Hf.
      * apply Hx. now left.
Qed.

Lemma keyed_inj (tbl : list row) (r r' : row) :
  keyed rowid tbl -> In r tbl -> In r' tbl -> rowid r = rowid r' -> r = r'.
Proof.
  induction tbl as [|y tbl IH]; simpl; intros H Hr Hr' E; [tauto |].
  apply keyed_cons in H as [Hs Hf].
  destruct Hr as [<- | Hr], Hr' as [<- | Hr'].
  - reflexivity.
  - specialize (Hf r' Hr'). lia.
  - specialize (Hf r Hr). lia.
  - now apply IH.
Qed.

Lemma ids_put_row (x : row) (tbl : list row) :
  ids rowid (put_row rowid x tbl) = ids rowid tbl.
Proof.
  unfold ids, put_row. rewrite map_map. apply map_ext.
  intros r. destruct (Z.eqb_spec (rowid r) (rowid x)); congruence.
Qed.

Lemma in_put_row (x r : row) (tbl : list row) :
  In r (put_row rowid x tbl) <->
  (r = x /\ In (rowid x) (ids rowid tbl)) \/ (In r tbl /\ rowid r <> rowid x).
Proof.
  unfold put_row, ids. rewrite in_map_iff. split.
  - intros [y [E Hy]].
    destruct (Z.eqb_spec (rowid y) (rowid x)) as [E'|E']; subst.
    + left. split; [reflexivity |]. rewrite <- E'. now apply in_map.
    + right. now split.
  - intros [[-> H] | [Hr Hne]].
    + apply in_map_iff in H as [y [E Hy]]. exists y.
      apply Z.eqb_eq in E. now rewrite E.
    + exists r. apply Z.eqb_neq in Hne. now rewrite Hne.
Qed.

Lemma put_row_same (r : row) (tbl : list row) :
  keyed rowid tbl -> In r tbl -> put_row rowid r tbl = tbl.
Proof.
  intros Hk Hr. unfold put_row. rewrite <- (map_id tbl) at 2.
  apply map_ext_in. intros y Hy.
  destruct (Z.eqb_spec (rowid y) (rowid r)) as [E|E]; [|reflexivity].
  symmetry. now apply (keyed_inj tbl).
Qed.

(** Deleting the row with the rowid of [x] and inserting [x] puts [x]
    in its place. *)
Lemma insert_delete_same (x : row) (tbl : list row) :
  keyed rowid tbl -> In (rowid x) (ids rowid tbl) ->
  insert_row rowid x (delete_where (fun r => rowid r =? rowid x) tbl)
  = put_row rowid x tbl.
Proof.
  induction tbl as [|y tbl IH]; simpl; intros Hk Hin; [tauto |].
  apply keyed_cons in Hk as [Hs Hf].
  destruct (Z.eqb_spec (rowid y) (rowid x)) as [E|E]; simpl.
  - assert (Hd : delete_where (fun r => rowid r =? rowid x) tbl = tbl).
    { unfold delete_where. apply forallb_filter_id. apply forallb_forall.
      intros r Hr. specialize (Hf r Hr).
      destruct (Z.eqb_spec (rowid r) (rowid x)); [lia | reflexivity]. }
    assert (Hp : put_row rowid x tbl = tbl).
    { unfold put_row. rewrite <- (map_id tbl) at 2. apply map_ext_in.
      intros r Hr. specialize (Hf r Hr).
      destruct (Z.eqb_spec (rowid r) (rowid x)); [lia | reflexivity]. }
    rewrite Hd. fold (put_row rowid x tbl). rewrite Hp.
    destruct tbl as [|z tbl]; simpl; [reflexivity |].
    assert (rowid y < rowid z) by (apply Hf; now left).
    destruct (Z.ltb_spec (rowid x) (rowid z)); [reflexivity | lia].
  - destruct Hin as [Hin | Hin]; [congruence |].
    assert (rowid y < rowid x).
    { unfold ids in Hin. apply in_map_iff in Hin as [r [<- Hr]]. now apply Hf. }
    destruct (Z.ltb_spec (rowid x) (rowid y)); [lia |].
    f_equal. now apply IH.
Qed.

Lemma delete_none (c : row -> bool) (tbl : list row) :
  (forall r, In r tbl -> c r = false) -> delete_where c tbl = tbl.
Proof.
  intros H. unfold delete_where. apply forallb_filter_id.
  apply forallb_forall. intros r Hr. now rewrite H.
Qed.

Lemma delete_ext (c c' : row -> bool) (tbl : list row) :
  (forall r, In r tbl -> c r = c' r) ->
  delete_where c tbl = delete_where c' tbl.
Proof.
  intros H. unfold delete_where. apply filter_ext_in.
  intros r Hr. now rewrite H.
Qed.
End TableFacts.

Lemma NoDup_map_inj {A B} (f : A -> B) (l : list A) (a b : A) :
  NoDup (map f l) -> In a l -> In b l -> f a = f b -> a = b.
Proof.
  induction l as [|y l IH]; simpl; intros Hnd Ha Hb E; [tauto |].
  inversion Hnd as [|? ? Hni Hnd']; subst.
  destruct Ha as [<- | Ha], Hb as [<- | Hb].
  - reflexivity.
  - exfalso. apply Hni. rewrite E. now apply in_map.
  - exfalso. apply Hni. rewrite <- E. now apply in_map.
  - now apply IH.
Qed.

Lemma mem_In (k : Z) (l : list Z) : mem k l = true <-> In k l.
Proof.
  unfold mem. rewrite existsb_exists. split.
  - intros [x [Hx E]]. apply Z.eqb_eq in E. now subst.
  - intros H. exists k. split; [assumption | apply Z.eqb_refl].
Qed.

Lemma parents_kept_incl (before after : list Z) (refs : list (option Z)) :
  (forall k, In k before -> In k after) ->
  parents_kept before after refs = true.
Proof.
  intros H. unfold parents_kept. apply forallb_forall.
  intros [k|] _; [|reflexivity].
  destruct (mem k before) eqn:E; [|reflexivity]. simpl.
  apply mem_In. apply H. now apply mem_In.
Qed.

(** A UNIQUE text column. *)
Section KeyFacts.
Variable row : Type.
Variable ukey : row -> string.

Local Abbreviation by_key k := (fun r => String.eqb (ukey r) k).

Lemma find_unique (k : string) (x : row) (l : list row) :
  NoDup (map ukey l) ->
  (find (by_key k) l = Some x <-> In x l /\ ukey x = k).
Proof.
  intros Hnd. split.
  - intros H. apply find_some in H as [H1 H2]. split; [assumption |].
    now apply String.eqb_eq in H2.
  - intros [Hx Hk]. destruct (find (by_key k) l) as [y|] eqn:E.
    + apply find_some in E as [Hy Hky]. apply String.eqb_eq in Hky.
      f_equal. apply (NoDup_map_inj ukey l); congruence.
    + apply (find_none _ _ E) in Hx. apply String.eqb_neq in Hx. congruence.
Qed.

Lemma find_absent (k : string) (l : list row) :
  find (by_key k) l = None <-> forall r, In r l -> ukey r <> k.
Proof.
  split.
  - intros H r Hr. apply (find_none _ _ H) in Hr.
    now apply String.eqb_neq in Hr.
  - intros H. destruct (find (by_key k) l) as [y|] eqn:E; [|reflexivity].
    apply find_some in E as [Hy Hky]. apply String.eqb_eq in Hky.
    now apply H in Hy.
Qed.

Lemma filter_unique (k : string) (x : row) (l : list row) :
  NoDup (map ukey l) -> In x l -> ukey x = k -> filter (by_key k) l = [x].
Proof.
  induction l as [|y l IH]; simpl; intros Hnd Hx Hk; [tauto |].
  inversion Hnd as [|? ? Hni Hnd']; subst.
  destruct Hx as [-> | Hx].
  - rewrite String.eqb_refl. f_equal.
    destruct (filter (by_key (ukey x)) l) as [|z t] eqn:E; [reflexivity |].
    assert (Hz : In z (filter (by_key (ukey x)) l)) by (rewrite E; now left).
    apply filter_In in Hz as [Hz Hkz]. apply String.eqb_eq in Hkz.
    exfalso. apply Hni. rewrite <- Hkz. now apply in_map.
  -
    destruct (String.eqb_spec (ukey y) (ukey x)) as [E|E].
    + exfalso. apply Hni. rewrite E. now apply in_map.
    + now apply IH.
Qed.

Lemma filter_absent (k : string) (l : list row) :
  find (by_key k) l = None -> filter (by_key k) l = [].
Proof.
  intros H. destruct (filter (by_key k) l) as [|z t] eqn:E; [reflexivity |].
  assert (Hz : In z (filter (by_key k) l)) by (rewrite E; now left).
  apply filter_In in Hz as [Hz Hkz]. now rewrite (find_none _ _ H z Hz) in Hkz.
Qed.

Lemma find_app_last (k' : string) (x : row) (tbl : list row) :
  find (by_key k') (tbl ++ [x]) =
  match find (by_key k') tbl with
  | Some r => Some r
  | None => if by_key k' x then Some x else None
  end.
Proof.
  induction tbl as [|y tbl IH]; simpl; [reflexivity |].
  destruct (by_key k' y); [reflexivity | apply IH].
Qed.
End KeyFacts.

(** A table with a UNIQUE text column. *)
Section UniqueFacts.
Variable row : Type.
Variable rowid : row -> Z.
Variable ukey : row -> string.

Local Abbreviation by_key k := (fun r => String.eqb (ukey r) k).

Lemma upsert_found (k : string) (x r : row) (tbl : list row) :
  keyed rowid tbl -> NoDup (map ukey tbl) ->
  find (by_key k) tbl = Some r -> rowid x = rowid r ->
  insert_or_replace rowid (by_key k) x tbl = put_row rowid x tbl.
Proof.
  intros Hk Hnd Hf Hx. apply find_some in Hf as [Hr Hkey].
  apply String.eqb_eq in Hkey.
  unfold insert_or_replace.
  rewrite (delete_ext _ _ (fun r' => rowid r' =? rowid x)).
  - apply insert_delete_same; [assumption |].
    rewrite Hx. unfold ids. now apply in_map.
  - intros r' Hr'.
    destruct (String.eqb_spec (ukey r') k) as [E|E];
      [|now rewrite orb_false_r].
    assert (r' = r) by (apply (NoDup_map_inj ukey tbl); congruence).
    subst r'. rewrite Hx, Z.eqb_refl. reflexivity.
Qed.

Lemma upsert_fresh (k : string) (x : row) (tbl : list row) :
  find (by_key k) tbl = None -> rowid x = next_rowid rowid tbl ->
  insert_or_replace rowid (by_key k) x tbl = (tbl ++ [x])%list.
Proof.
  intros Hf Hx. unfold insert_or_replace.
  rewrite delete_none.
  - apply insert_row_last. intros r Hr. rewrite Hx.
    now apply next_rowid_above.
  - intros r Hr. rewrite (find_none _ _ Hf r Hr), orb_false_r.
    apply Z.eqb_neq. apply (next_rowid_above _ rowid) in Hr. lia.
Qed.

Lemma map_ukey_put_row (x r : row) (tbl : list row) :
  keyed rowid tbl -> In r tbl -> rowid x = rowid r -> ukey x = ukey r ->
  map ukey (put_row rowid x tbl) = map ukey tbl.
Proof.
  intros Hk Hr Hx Hu. unfold put_row. rewrite map_map.
  apply map_ext_in. intros y Hy.
  destruct (Z.eqb_spec (rowid y) (rowid x)) as [E|E]; [|reflexivity].
  assert (y = r) by (apply (keyed_inj _ rowid tbl); congruence).
  congruence.
Qed.

Lemma find_put_row (k k' : string) (x r : row) (tbl : list row) :
  keyed rowid tbl -> NoDup (map ukey tbl) ->
  find (by_key k) tbl = Some r -> rowid x = rowid r -> ukey x = k ->
  find (by_key k') (put_row rowid x tbl) =
  if String.eqb k k' then Some x else find (by_key k') tbl.
Proof.
  intros Hk Hnd Hf Hx Hux.
  apply find_unique in Hf as [Hr Hkey]; [|assumption].
  assert (Hnd' : NoDup (map ukey (put_row rowid x tbl))).
  { rewrite (map_ukey_put_row x r); congruence. }
  assert (Hin : In x (put_row rowid x tbl)).
  { apply in_put_row. left. split; [reflexivity |].
    rewrite Hx. unfold ids. now apply in_map. }
  destruct (String.eqb_spec k k') as [E|E].
  - apply find_unique; [assumption |]. split; congruence.
  - destruct (find (by_key k') tbl) as [z|] eqn:Ez.
    + apply find_unique in Ez as [Hz Hkz]; [|assumption].
      apply find_unique; [assumption |]. split; [|assumption].
      apply in_put_row. right. split; [assumption |].
      intros Eid. assert (z = r) by (apply (keyed_inj _ rowid tbl); congruence).
      congruence.
    + apply find_absent. intros y Hy.
      apply in_put_row in Hy as [[-> _] | [Hy _]]; [congruence |].
      now apply (proj1 (find_absent _ ukey k' tbl) Ez).
Qed.

End UniqueFacts.

(** * The statements on a consistent database *)

Lemma contents_found (hash html markdown : string) (db : DB) (r : contents_row) :
  wf db ->
  find (fun r => String.eqb (c_hash r) hash) (contents db) = Some r ->
  exists db',
    insert_or_replace_contents hash html markdown db = OK db' /\
    contents db' = put_row c_id (new_content (c_id r) hash html markdown) (contents db) /\
    projects db' = projects db /\
    project_observations db' = project_observations db.
Proof.
  intros Hwf Hf. unfold insert_or_replace_contents, select_contents_id.
  rewrite Hf. simpl.
  rewrite (upsert_found _ c_id c_hash hash _ r);
    [| apply Hwf | apply Hwf | assumption | reflexivity].
  rewrite parents_kept_incl.
  - eexists. split; [reflexivity |]. simpl. auto.
  - intros k Hk. now rewrite ids_put_row.
Qed.

Lemma contents_fresh (hash html markdown : string) (db : DB) :
  find (fun r => String.eqb (c_hash r) hash) (contents db) = None ->
  exists db',
    insert_or_replace_contents hash html markdown db = OK db' /\
    contents db' = (contents db ++
                    [new_content (next_rowid c_id (contents db)) hash html markdown])%list /\
    projects db' = projects db /\
    project_observations db' = project_observations db.
Proof.
  intros Hf. unfold insert_or_replace_contents, select_contents_id.
  rewrite Hf. simpl.
  rewrite (upsert_fresh _ c_id c_hash hash); [| assumption | reflexivity].
  rewrite parents_kept_incl.
  - eexists. split; [reflexivity |]. simpl. auto.
  - intros k Hk. unfold ids. rewrite map_app, in_app_iff. now left.
Qed.

Lemma projects_found (url title state : string) (db : DB) (r : projects_row) :
  wf db ->
  find (fun r => String.eqb (p_url r) url) (projects db) = Some r ->
  exists db',
    insert_or_replace_projects url title state db = OK db' /\
    projects db' = put_row p_id (new_project (p_id r) url title state) (projects db) /\
    contents db' = contents db /\
    project_observations db' = project_observations db.
Proof.
  intros Hwf Hf. unfold insert_or_replace_projects, select_projects_id.
  rewrite Hf. simpl.
  rewrite (upsert_found _ p_id p_url url _ r);
    [| apply Hwf | apply Hwf | assumption | reflexivity].
  rewrite parents_kept_incl.
  - eexists. split; [reflexivity |]. simpl. auto.
  - intros k Hk. now rewrite ids_put_row.
Qed.

Lemma projects_fresh (url title state : string) (db : DB) :
  find (fun r => String.eqb (p_url r) url) (projects db) = None ->
  exists db',
    insert_or_replace_projects url title state db = OK db' /\
    projects db' = (projects db ++
                    [new_project (next_rowid p_id (projects db)) url title state])%list /\
    contents db' = contents db /\
    project_observations db' = project_observations db.
Proof.
  intros Hf. unfold insert_or_replace_projects, select_projects_id.
  rewrite Hf. simpl.
  rewrite (upsert_fresh _ p_id p_url url); [| assumption | reflexivity].
  rewrite parents_kept_incl.
  - eexists. split; [reflexivity |]. simpl. auto.
  - intros k Hk. unfold ids. rewrite map_app, in_app_iff. now left.
Qed.

Lemma select_contents_in (hash : string) (db : DB) (i : Z) :
  select_contents_id hash db = Some i ->
  exists r, In r (contents db) /\ c_hash r = hash /\ c_id r = i.
Proof.
  unfold select_contents_id.
  destruct (find _ (contents db)) as [r|] eqn:E; simpl; [|discriminate].
  intros [= <-]. apply find_some in E as [H1 H2].
  apply String.eqb_eq in H2. now exists r.
Qed.

Lemma select_projects_in (url : string) (db : DB) (i : Z) :
  select_projects_id url db = Some i ->
  exists r, In r (projects db) /\ p_url r = url /\ p_id r = i.
Proof.
  unfold select_projects_id.
  destruct (find _ (projects db)) as [r|] eqn:E; simpl; [|discriminate].
  intros [= <-]. apply find_some in E as [H1 H2].
  apply String.eqb_eq in H2. now exists r.
Qed.

Lemma parent_exists_select_projects (url : string) (db : DB) :
  parent_exists (select_projects_id url db) (ids p_id (projects db)) = true.
Proof.
  destruct (select_projects_id url db) as [i|] eqn:E; simpl; [|reflexivity].
  apply select_projects_in in E as [r [Hr [_ <-]]].
  apply mem_In. unfold ids. now apply in_map.
Qed.

Lemma parent_exists_select_contents (hash : string) (db : DB) :
  parent_exists (select_contents_id hash db) (ids c_id (contents db)) = true.
Proof.
  destruct (select_contents_id hash db) as [i|] eqn:E; simpl; [|reflexivity].
  apply select_contents_in in E as [r [Hr [_ <-]]].
  apply mem_In. unfold ids. now apply in_map.
Qed.

(** The third statement never fails on a constraint and appends its row. *)
Lemma observations_appended (url : string) (now : Z) (hash : string) (db : DB) :
  insert_project_observations url now hash db =
  OK {| contents := contents db;
        projects := projects db;
        project_observations :=
          (project_observations db ++
           [{| o_id := next_rowid o_id (project_observations db);
               o_project_id := select_projects_id url db;
               o_t := now;
               o_content_id := select_contents_id hash db |}])%list |}.
Proof.
  unfold insert_project_observations. simpl.
  rewrite parent_exists_select_projects, parent_exists_select_contents. simpl.
  rewrite insert_row_last; [reflexivity |].
  intros r Hr. simpl. now apply next_rowid_above.
Qed.

Lemma NoDup_app_last {A} (l : list A) (a : A) :
  NoDup l -> ~ In a l -> NoDup (l ++ [a]).
Proof.
  induction l as [|y l IH]; simpl; intros Hnd Hni.
  - constructor; [tauto | constructor].
  - inversion Hnd as [|? ? Hy Hnd']; subst. constructor.
    + rewrite in_app_iff. simpl. intuition congruence.
    + apply IH; tauto.
Qed.

Lemma keyed_put_row {row} (rowid : row -> Z) (x : row) (tbl : list row) :
  keyed rowid tbl -> keyed rowid (put_row rowid x tbl).
Proof. unfold keyed. now rewrite ids_put_row. Qed.

(** ** Consistency is kept *)

Lemma wf_insert_or_replace_contents (hash html markdown : string) (db db' : DB) :
  wf db -> insert_or_replace_contents hash html markdown db = OK db' -> wf db'.
Proof.
  intros Hwf H.
  destruct (find (fun r => String.eqb (c_hash r) hash) (contents db)) as [r|] eqn:Ef.
  - destruct (contents_found hash html markdown db r Hwf Ef)
      as [d [Hd [Hc [Hp Ho]]]].
    rewrite Hd in H. injection H as <-.
    pose proof Ef as Ef'. apply find_some in Ef' as [Hr Hh].
    apply String.eqb_eq in Hh.
    constructor; rewrite ?Hc, ?Hp, ?Ho; try apply Hwf.
    + apply keyed_put_row, Hwf.
    + rewrite (map_ukey_put_row _ c_id c_hash _ r);
        [apply Hwf | apply Hwf | assumption | reflexivity | now simpl].
    + rewrite ids_put_row. apply Hwf.
  - destruct (contents_fresh hash html markdown db Ef) as [d [Hd [Hc [Hp Ho]]]].
    rewrite Hd in H. injection H as <-.
    constructor; rewrite ?Hc, ?Hp, ?Ho; try apply Hwf.
    + apply keyed_app_last; [apply Hwf |].
      intros r Hr. simpl. now apply next_rowid_above.
    + rewrite map_app. simpl. apply NoDup_app_last; [apply Hwf |].
      intros Hin. apply in_map_iff in Hin as [r [Hh Hr]].
      apply (find_none _ _ Ef) in Hr. apply String.eqb_neq in Hr. congruence.
    + intros o k Ho' Hk. unfold ids. rewrite map_app, in_app_iff. left.
      now apply (wf_content_id db Hwf o k).
Qed.

Lemma wf_insert_or_replace_projects (url title state : string) (db db' : DB) :
  wf db -> insert_or_replace_projects url title state db = OK db' -> wf db'.
Proof.
  intros Hwf H.
  destruct (find (fun r => String.eqb (p_url r) url) (projects db)) as [r|] eqn:Ef.
  - destruct (projects_found url title state db r Hwf Ef)
      as [d [Hd [Hp [Hc Ho]]]].
    rewrite Hd in H. injection H as <-.
    pose proof Ef as Ef'. apply find_some in Ef' as [Hr Hh].
    apply String.eqb_eq in Hh.
    constructor; rewrite ?Hc, ?Hp, ?Ho; try apply Hwf.
    + apply keyed_put_row, Hwf.
    + rewrite (map_ukey_put_row _ p_id p_url _ r);
        [apply Hwf | apply Hwf | assumption | reflexivity | now simpl].
    + rewrite ids_put_row. apply Hwf.
  - destruct (projects_fresh url title state db Ef) as [d [Hd [Hp [Hc Ho]]]].
    rewrite Hd in H. injection H as <-.
    constructor; rewrite ?Hc, ?Hp, ?Ho; try apply Hwf.
    + apply keyed_app_last; [apply Hwf |].
      intros r Hr. simpl. now apply next_rowid_above.
    + rewrite map_app. simpl. apply NoDup_app_last; [apply Hwf |].
      intros Hin. apply in_map_iff in Hin as [r [Hh Hr]].
      apply (find_none _ _ Ef) in Hr. apply String.eqb_neq in Hr. congruence.
    + intros o k Ho' Hk. unfold ids. rewrite map_app, in_app_iff. left.
      now apply (wf_project_id db Hwf o k).
Qed.

Lemma wf_insert_project_observations (url : string) (now : Z) (hash : string)
      (db db' : DB) :
  wf db -> insert_project_observations url now hash db = OK db' -> wf db'.
Proof.
  intros Hwf H. rewrite observations_appended in H. injection H as <-.
  constructor; simpl; try apply Hwf.
  - apply keyed_app_last; [apply Hwf |].
    intros r Hr. simpl. now apply next_rowid_above.
  - intros o k Ho Hk. apply in_app_iff in Ho as [Ho | [<- | []]].
    + now apply (wf_project_id db Hwf o k).
    + simpl in Hk. apply select_projects_in in Hk as [r [Hr [_ <-]]].
      unfold ids. now apply in_map.
  - intros o k Ho Hk. apply in_app_iff in Ho as [Ho | [<- | []]].
    + now apply (wf_content_id db Hwf o k).
    + simpl in Hk. apply select_contents_in in Hk as [r [Hr [_ <-]]].
      unfold ids. now apply in_map.
Qed.

Lemma insert_or_replace_contents_ok (hash html markdown : string) (db : DB) :
  wf db -> exists db', insert_or_replace_contents hash html markdown db = OK db'.
Proof.
  intros Hwf.
  destruct (find (fun r => String.eqb (c_hash r) hash) (contents db)) as [r|] eqn:Ef.
  - destruct (contents_found hash html markdown db r Hwf Ef) as [d [Hd _]]. eauto.
  - destruct (contents_fresh hash html markdown db Ef) as [d [Hd _]]. eauto.
Qed.

Lemma insert_or_replace_projects_ok (url title state : string) (db : DB) :
  wf db -> exists db', insert_or_replace_projects url title state db = OK db'.
Proof.
  intros Hwf.
  destruct (find (fun r => String.eqb (p_url r) url) (projects db)) as [r|] eqn:Ef.
  - destruct (projects_found url title state db r Hwf Ef) as [d [Hd _]]. eauto.
  - destruct (projects_fresh url title state db Ef) as [d [Hd _]]. eauto.
Qed.

Lemma wf_empty_db : wf empty_db.
Proof.
  constructor; simpl; try constructor; intros o k [].
Qed.

(** * The transaction *)

(** The outcome of a unit, call by call. *)
Lemma upsert_unit_unfold (fault : step -> bool) (p : Project) (now : Z) (db : DB) :
  upsert_unit fault p now db =
  if fault Begin then (Some ErrStorage, db)
  else if fault ExecContents then (Some ErrStorage, db)
  else match insert_or_replace_contents (HTMLSum p) (HTML p) (Markdown p) db with
       | Err e => (Some e, db)
       | OK d1 =>
           if fault ExecProjects then (Some ErrStorage, db)
           else match insert_or_replace_projects (URL p) (Title p) (State p) d1 with
                | Err e => (Some e, db)
                | OK d2 =>
                    if fault ExecObservations then (Some ErrStorage, db)
                    else match insert_project_observations (URL p) now (HTMLSum p) d2 with
                         | Err e => (Some e, db)
                         | OK d3 =>
                             if fault Commit then (Some ErrStorage, db)
                             else (None, d3)
                         end
                end
       end.
Proof.
  unfold upsert_unit, upsert_tx, db_Begin, bind, tx_Exec, tx_Commit, tx_Rollback.
  simpl.
  destruct (fault Begin); [reflexivity |]. simpl.
  destruct (fault ExecContents); [reflexivity |].
  destruct (insert_or_replace_contents _ _ _ db) as [d1|e]; [|reflexivity]. simpl.
  destruct (fault ExecProjects); [reflexivity |].
  destruct (insert_or_replace_projects _ _ _ d1) as [d2|e]; [|reflexivity]. simpl.
  destruct (fault ExecObservations); [reflexivity |].
  destruct (insert_project_observations _ _ _ d2) as [d3|e]; [|reflexivity]. simpl.
  destruct (fault Commit); reflexivity.
Qed.

Lemma upsert_unit_failed (fault : step -> bool) (p : Project) (now : Z)
      (db db' : DB) (e : error) :
  upsert_unit fault p now db = (Some e, db') -> db' = db.
Proof.
  rewrite upsert_unit_unfold.
  repeat match goal with
         | |- context [if ?b then _ else _] => destruct b
         | |- context [match ?r with OK _ => _ | Err _ => _ end] => destruct r
         end; congruence.
Qed.

Lemma upsert_unit_fault (fault : step -> bool) (p : Project) (now : Z)
      (db : DB) (st : step) :
  fault st = true -> exists e, upsert_unit fault p now db = (Some e, db).
Proof.
  intros Hst. rewrite upsert_unit_unfold.
  destruct (fault Begin) eqn:E0; [eauto |].
  destruct (fault ExecContents) eqn:E1; [eauto |].
  destruct (insert_or_replace_contents _ _ _ db) as [d1|e]; [|eauto].
  destruct (fault ExecProjects) eqn:E2; [eauto |].
  destruct (insert_or_replace_projects _ _ _ d1) as [d2|e]; [|eauto].
  destruct (fault ExecObservations) eqn:E3; [eauto |].
  destruct (insert_project_observations _ _ _ d2) as [d3|e]; [|eauto].
  destruct (fault Commit) eqn:E4; [eauto |].
  destruct st; congruence.
Qed.

Lemma upsert_unit_succeeded (fault : step -> bool) (p : Project) (now : Z)
      (db db' : DB) :
  upsert_unit fault p now db = (None, db') ->
  (forall st, fault st = false) /\
  exists d1 d2,
    insert_or_replace_contents (HTMLSum p) (HTML p) (Markdown p) db = OK d1 /\
    insert_or_replace_projects (URL p) (Title p) (State p) d1 = OK d2 /\
    insert_project_observations (URL p) now (HTMLSum p) d2 = OK db'.
Proof.
  rewrite upsert_unit_unfold.
  destruct (fault Begin) eqn:E0; [discriminate |].
  destruct (fault ExecContents) eqn:E1; [discriminate |].
  destruct (insert_or_replace_contents _ _ _ db) as [d1|e] eqn:H1; [|discriminate].
  destruct (fault ExecProjects) eqn:E2; [discriminate |].
  destruct (insert_or_replace_projects _ _ _ d1) as [d2|e] eqn:H2; [|discriminate].
  destruct (fault ExecObservations) eqn:E3; [discriminate |].
  destruct (insert_project_observations _ _ _ d2) as [d3|e] eqn:H3; [|discriminate].
  destruct (fault Commit) eqn:E4; [discriminate |].
  intros [= <-]. split; [intros []; assumption |].
  exists d1, d2. auto.
Qed.

(** On a consistent database a unit fails only by a fault of the storage. *)
Lemma upsert_unit_runs (fault : step -> bool) (p : Project) (now : Z) (db : DB) :
  wf db -> (forall st, fault st = false) ->
  exists d1 d2 db',
    insert_or_replace_contents (HTMLSum p) (HTML p) (Markdown p) db = OK d1 /\
    insert_or_replace_projects (URL p) (Title p) (State p) d1 = OK d2 /\
    insert_project_observations (URL p) now (HTMLSum p) d2 = OK db' /\
    upsert_unit fault p now db = (None, db') /\
    wf d1 /\ wf d2 /\ wf db'.
Proof.
  intros Hwf Hf.
  destruct (insert_or_replace_contents_ok (HTMLSum p) (HTML p) (Markdown p) db Hwf)
    as [d1 H1].
  pose proof (wf_insert_or_replace_contents _ _ _ _ _ Hwf H1) as Hwf1.
  destruct (insert_or_replace_projects_ok (URL p) (Title p) (State p) d1 Hwf1)
    as [d2 H2].
  pose proof (wf_insert_or_replace_projects _ _ _ _ _ Hwf1 H2) as Hwf2.
  pose proof (observations_appended (URL p) now (HTMLSum p) d2) as H3.
  pose proof (wf_insert_project_observations _ _ _ _ _ Hwf2 H3) as Hwf3.
  exists d1, d2. eexists.
  split; [exact H1 |]. split; [exact H2 |]. split; [exact H3 |].
  split; [| auto].
  rewrite upsert_unit_unfold, !Hf, H1, H2, H3. reflexivity.
Qed.

Lemma wf_upsert_unit (fault : step -> bool) (p : Project) (now : Z) (db : DB) :
  wf db -> wf (snd (upsert_unit fault p now db)).
Proof.
  intros Hwf. destruct (upsert_unit fault p now db) as [[e|] db'] eqn:E; simpl.
  - apply upsert_unit_failed in E. now subst.
  - apply upsert_unit_succeeded in E as [_ [d1 [d2 [H1 [H2 H3]]]]].
    eapply wf_insert_project_observations; [|eassumption].
    eapply wf_insert_or_replace_projects; [|eassumption].
    eapply wf_insert_or_replace_contents; eassumption.
Qed.

Lemma find_exists {A} (f : A -> bool) (l : list A) (x : A) :
  In x l -> f x = true -> exists y, find f l = Some y.
Proof.
  intros Hx Hf. destruct (find f l) as [y|] eqn:E; [eauto |].
  rewrite (find_none _ _ E x Hx) in Hf. discriminate.
Qed.

(** What the first two statements leave in place, on any database. *)
Lemma insert_or_replace_contents_frame (hash html markdown : string) (db d1 : DB) :
  insert_or_replace_contents hash html markdown db = OK d1 ->
  projects d1 = projects db /\
  project_observations d1 = project_observations db /\
  exists i, select_contents_id hash d1 = Some i.
Proof.
  unfold insert_or_replace_contents.
  destruct (parents_kept _ _ _); [|discriminate].
  intros [= <-]. simpl. repeat split.
  unfold select_contents_id. simpl.
  match goal with
  | |- context [find ?f (insert_or_replace c_id ?c ?x ?l)] =>
      destruct (find_exists f (insert_or_replace c_id c x l) x) as [y Hy]
  end.
  - unfold insert_or_replace. apply in_insert_row. now left.
  - simpl. apply String.eqb_refl.
  - rewrite Hy. simpl. eauto.
Qed.

Lemma insert_or_replace_projects_frame (url title state : string) (db d2 : DB) :
  insert_or_replace_projects url title state db = OK d2 ->
  contents d2 = contents db /\
  project_observations d2 = project_observations db /\
  exists i, select_projects_id url d2 = Some i.
Proof.
  unfold insert_or_replace_projects.
  destruct (parents_kept _ _ _); [|discriminate].
  intros [= <-]. simpl. repeat split.
  unfold select_projects_id. simpl.
  match goal with
  | |- context [find ?f (insert_or_replace p_id ?c ?x ?l)] =>
      destruct (find_exists f (insert_or_replace p_id c x l) x) as [y Hy]
  end.
  - unfold insert_or_replace. apply in_insert_row. now left.
  - simpl. apply String.eqb_refl.
  - rewrite Hy. simpl. eauto.
Qed.

(** C1.  One atomic-upsert unit is all or nothing.  A fault of the
    storage at any of its five calls makes it return an error; no
    statement of the transaction changes what is committed; whenever the
    unit returns an error, the database is what it was before it.  When
    it returns no error, the three statements ran in order: the first left
    a contents row [c] for the sum, the second, on that state, left a
    projects row [pr] for the URL, and the third, on that state, appended
    one observation that refers to the ids of [pr] and [c]. *)
Theorem upsert_unit_atomic (fault : step -> bool) (p : Project) (now : Z) (db : DB) :
  (forall st, fault st = true ->
              exists e, upsert_unit fault p now db = (Some e, db)) /\
  (forall st stmt s, file (snd (tx_Exec fault st stmt s)) = file s) /\
  match upsert_unit fault p now db with
  | (Some _, db') => db' = db
  | (None, db') =>
      exists d1 d2 c pr,
        insert_or_replace_contents (HTMLSum p) (HTML p) (Markdown p) db = OK d1 /\
        In c (contents d1) /\ c_hash c = HTMLSum p /\
        insert_or_replace_projects (URL p) (Title p) (State p) d1 = OK d2 /\
        contents d2 = contents d1 /\
        In pr (projects d2) /\ p_url pr = URL p /\
        insert_project_observations (URL p) now (HTMLSum p) d2 = OK db' /\
        contents db' = contents d2 /\
        projects db' = projects d2 /\
        project_observations db' =
          (project_observations db ++
           [{| o_id := next_rowid o_id (project_observations db);
               o_project_id := Some (p_id pr);
               o_t := now;
               o_content_id := Some (c_id c) |}])%list
  end.
Proof.
  split; [intros st; apply upsert_unit_fault |].
  split.
  { intros st stmt s. unfold tx_Exec.
    destruct (tx s); [|reflexivity].
    destruct (fault st); [reflexivity |].
    destruct (stmt d); reflexivity. }
  destruct (upsert_unit fault p now db) as [[e|] db'] eqn:E.
  - now apply upsert_unit_failed in E.
  - apply upsert_unit_succeeded in E as [_ [d1 [d2 [H1 [H2 H3]]]]].
    destruct (insert_or_replace_contents_frame _ _ _ _ _ H1) as [Hp1 [Ho1 [i Hi]]].
    destruct (insert_or_replace_projects_frame _ _ _ _ _ H2) as [Hc2 [Ho2 [j Hj]]].
    assert (Hi2 : select_contents_id (HTMLSum p) d2 = Some i).
    { unfold select_contents_id in *. now rewrite Hc2. }
    destruct (select_contents_in _ _ _ Hi) as [c [Hc [Hch Hcid]]].
    destruct (select_projects_in _ _ _ Hj) as [pr [Hpr [Hpu Hpid]]].
    exists d1, d2, c, pr.
    pose proof H3 as H3'.
    rewrite observations_appended in H3'. injection H3' as <-. simpl.
    rewrite Hi2, Hj, Ho2, Ho1, Hcid, Hpid.
    repeat split; try assumption.
    rewrite H3, Hi2, Hj, Ho2, Ho1. reflexivity.
Qed.

(** * The content store *)

(** After the statement there is a row for the sum with the body and the
    markdown given, under the rowid the sum had, if it had one. *)
Lemma insert_or_replace_contents_row (hash html markdown : string) (db : DB) :
  wf db ->
  exists db' i,
    insert_or_replace_contents hash html markdown db = OK db' /\
    wf db' /\
    In (new_content i hash html markdown) (contents db') /\
    (forall j, select_contents_id hash db = Some j -> i = j) /\
    (forall r, In r (contents db) -> c_hash r <> hash -> In r (contents db')) /\
    (List.length (contents db') <= S (List.length (contents db)))%nat.
Proof.
  intros Hwf.
  destruct (find (fun r => String.eqb (c_hash r) hash) (contents db)) as [r|] eqn:Ef.
  - destruct (contents_found hash html markdown db r Hwf Ef)
      as [d [Hd [Hc [Hp Ho]]]].
    exists d, (c_id r). split; [assumption |].
    split; [eapply wf_insert_or_replace_contents; eassumption |].
    apply find_some in Ef as Ef'. destruct Ef' as [Hr Hh].
    apply String.eqb_eq in Hh. rewrite Hc. repeat split.
    + apply in_put_row. left. split; [reflexivity |].
      simpl. unfold ids. now apply in_map.
    + unfold select_contents_id. rewrite Ef. simpl. congruence.
    + intros r' Hr' Hne. apply in_put_row. right. split; [assumption |].
      simpl. intros E.
      assert (r' = r) by (apply (keyed_inj _ c_id (contents db)); auto; apply Hwf).
      congruence.
    + unfold put_row. rewrite length_map. lia.
  - destruct (contents_fresh hash html markdown db Ef) as [d [Hd [Hc [Hp Ho]]]].
    exists d, (next_rowid c_id (contents db)). split; [assumption |].
    split; [eapply wf_insert_or_replace_contents; eassumption |].
    rewrite Hc. repeat split.
    + apply in_app_iff. right. now left.
    + unfold select_contents_id. rewrite Ef. discriminate.
    + intros r' Hr' _. apply in_app_iff. now left.
    + rewrite length_app. simpl. lia.
Qed.

(** Writing again the row that is there changes nothing. *)
Lemma insert_or_replace_contents_again (i : Z) (hash html markdown : string) (db : DB) :
  wf db -> In (new_content i hash html markdown) (contents db) ->
  insert_or_replace_contents hash html markdown db = OK db.
Proof.
  intros Hwf Hin.
  assert (Ef : find (fun r => String.eqb (c_hash r) hash) (contents db)
               = Some (new_content i hash html markdown)).
  { apply (find_unique _ c_hash); [apply Hwf | now split]. }
  destruct (contents_found hash html markdown db _ Hwf Ef) as [d [Hd [Hc [Hp Ho]]]].
  rewrite Hd. f_equal. simpl in Hc.
  rewrite (put_row_same _ c_id) in Hc; [| apply Hwf | assumption].
  destruct d, db; simpl in *; congruence.
Qed.

Section ContentStore.
Context {L : Libraries}.

Lemma put_n_again (n : nat) (i : Z) (html markdown : string) (db : DB) :
  wf db -> In (new_content i (fingerprint html) html markdown) (contents db) ->
  put_n n html markdown db = (repeat (fingerprint html) n, OK db).
Proof.
  intros Hwf Hin. induction n as [|n IH]; simpl; [reflexivity |].
  rewrite (insert_or_replace_contents_again i); [| assumption | assumption].
  now rewrite IH.
Qed.

(** C2.  On a consistent database, [n >= 1] puts of the same body [html]
    all return the sum of [html] and succeed, and leave exactly one
    contents row for that sum, holding [html]; the table has grown by at
    most one row. *)
Theorem put_n_dedup (n : nat) (html markdown : string) (db : DB) :
  wf db -> (1 <= n)%nat ->
  exists db' r,
    put_n n html markdown db = (repeat (fingerprint html) n, OK db') /\
    contents_of (fingerprint html) db' = [r] /\
    c_hash r = fingerprint html /\
    c_html r = html /\
    c_markdown r = markdown /\
    (List.length (contents db') <= S (List.length (contents db)))%nat.
Proof.
  intros Hwf Hn. destruct n as [|n]; [lia |].
  destruct (insert_or_replace_contents_row (fingerprint html) html markdown db Hwf)
    as [d [i [Hd [Hwfd [Hin [_ [_ Hlen]]]]]]].
  exists d, (new_content i (fingerprint html) html markdown).
  simpl. rewrite Hd, (put_n_again n i); [| assumption | assumption].
  repeat split; try assumption.
  unfold contents_of. apply (filter_unique _ c_hash); [apply Hwfd | assumption | reflexivity].
Qed.
End ContentStore.

(** C3, as the code has it.  On a consistent database the first statement
    never fails.  A row [r] for another sum stays as it is.  A row [r] for
    the same sum keeps its rowid and its sum and gets the body and the
    markdown of the call, whatever it held: when they are the ones it
    held, the database is unchanged; when they differ, they are
    overwritten and no error is reported. *)
Theorem contents_row_after_put (hash html markdown : string) (db : DB)
        (r : contents_row) :
  wf db -> In r (contents db) ->
  exists db',
    insert_or_replace_contents hash html markdown db = OK db' /\
    (c_hash r <> hash -> In r (contents db')) /\
    (c_hash r = hash ->
     contents_of hash db' = [new_content (c_id r) hash html markdown] /\
     (c_html r = html -> c_markdown r = markdown -> db' = db)).
Proof.
  intros Hwf Hr.
  destruct (insert_or_replace_contents_row hash html markdown db Hwf)
    as [d [i [Hd [Hwfd [Hin [Hid [Hkeep _]]]]]]].
  exists d. split; [assumption |]. split; [now apply Hkeep |].
  intros Hh.
  assert (Hi : i = c_id r).
  { apply Hid. unfold select_contents_id.
    rewrite (proj2 (find_unique _ c_hash hash r (contents db) (wf_hash db Hwf)));
      [reflexivity | now split]. }
  subst i. split.
  - unfold contents_of.
    apply (filter_unique _ c_hash); [apply Hwfd | assumption | reflexivity].
  - intros Hhtml Hmd.
    assert (Hsame : insert_or_replace_contents hash html markdown db = OK db).
    { apply (insert_or_replace_contents_again (c_id r)); [assumption |].
      destruct r; simpl in *; subst. assumption. }
    congruence.
Qed.

(** * The registry *)

Lemma insert_or_replace_projects_row (url title state : string) (db : DB) :
  wf db ->
  exists db' i,
    insert_or_replace_projects url title state db = OK db' /\
    wf db' /\
    In (new_project i url title state) (projects db') /\
    (forall u, select_projects_id u db' =
               if String.eqb url u then Some i else select_projects_id u db) /\
    match select_projects_id url db with
    | Some j => i = j
    | None => i = next_rowid p_id (projects db)
    end /\
    contents db' = contents db /\
    project_observations db' = project_observations db /\
    (forall r, In r (projects db) -> p_url r <> url -> In r (projects db')) /\
    (forall r, In r (projects db') ->
               r = new_project i url title state \/
               (In r (projects db) /\ p_url r <> url)).
Proof.
  intros Hwf.
  destruct (find (fun r => String.eqb (p_url r) url) (projects db)) as [r|] eqn:Ef.
  - destruct (projects_found url title state db r Hwf Ef)
      as [d [Hd [Hp [Hc Ho]]]].
    exists d, (p_id r). split; [assumption |].
    split; [eapply wf_insert_or_replace_projects; eassumption |].
    apply find_some in Ef as Ef'. destruct Ef' as [Hr Hh].
    apply String.eqb_eq in Hh.
    assert (Hinj : forall r', In r' (projects db) -> p_id r' = p_id r -> r' = r).
    { intros r' Hr' E. apply (keyed_inj _ p_id (projects db)); auto. apply Hwf. }
    rewrite Hp. repeat split; try assumption.
    + apply in_put_row. left. split; [reflexivity |].
      simpl. unfold ids. now apply in_map.
    + intros u. unfold select_projects_id. rewrite Hp.
      rewrite (find_put_row _ p_id p_url url u _ r);
        [| apply Hwf | apply Hwf | assumption | reflexivity | reflexivity].
      now destruct (String.eqb url u).
    + unfold select_projects_id. now rewrite Ef.
    + intros r' Hr' Hne. apply in_put_row. right. split; [assumption |].
      simpl. intros E. apply Hinj in E; [congruence | assumption].
    + intros r' Hr'. apply in_put_row in Hr' as [[-> _] | [Hr' Hne]]; [now left |].
      right. split; [assumption |]. simpl in Hne. intros E. apply Hne.
      f_equal. apply (NoDup_map_inj p_url (projects db)); try assumption;
        [apply Hwf | congruence].
  - destruct (projects_fresh url title state db Ef) as [d [Hd [Hp [Hc Ho]]]].
    exists d, (next_rowid p_id (projects db)). split; [assumption |].
    split; [eapply wf_insert_or_replace_projects; eassumption |].
    rewrite Hp. repeat split; try assumption.
    + apply in_app_iff. right. now left.
    + intros u. unfold select_projects_id. rewrite Hp.
      rewrite (find_app_last _ p_url). simpl.
      destruct (String.eqb_spec url u) as [<- | Hne].
      * now rewrite Ef.
      * destruct (find (fun r => String.eqb (p_url r) u) (projects db));
          reflexivity.
    + unfold select_projects_id. now rewrite Ef.
    + intros r' Hr' _. apply in_app_iff. now left.
    + intros r' Hr'. apply in_app_iff in Hr' as [Hr' | [<- | []]]; [|now left].
      right. split; [assumption |].
      apply (proj1 (find_absent _ p_url url (projects db)) Ef). assumption.
Qed.

Lemma projects_of_at_most_one (u : string) (db : DB) :
  wf db -> (List.length (projects_of u db) <= 1)%nat.
Proof.
  intros Hwf. unfold projects_of.
  destruct (find (fun r => String.eqb (p_url r) u) (projects db)) as [r|] eqn:Ef.
  - apply (find_unique _ p_url) in Ef as [Hr Hu]; [|apply Hwf].
    rewrite (filter_unique _ p_url u r); [simpl; lia | apply Hwf | assumption | assumption].
  - rewrite (filter_absent _ p_url); [simpl; lia | assumption].
Qed.

Lemma upserts_from (u : string) (calls : list (string * string * string)) :
  forall (db : DB) (acc : option (string * string)),
    wf db ->
    (forall title state, acc = Some (title, state) ->
       exists r, projects_of u db = [r] /\ p_title r = title /\ p_state r = state) ->
    exists db',
      upserts calls db = OK db' /\ wf db' /\
      (forall title state,
         fold_left (fun acc c =>
                      match c with
                      | (u', title, state) =>
                          if String.eqb u' u then Some (title, state) else acc
                      end) calls acc = Some (title, state) ->
         exists r, projects_of u db' = [r] /\ p_title r = title /\ p_state r = state) /\
      (forall i, select_projects_id u db = Some i ->
                 select_projects_id u db' = Some i).
Proof.
  induction calls as [|[[url title] state] calls IH]; intros db acc Hwf Hacc; simpl.
  - exists db. auto.
  - destruct (insert_or_replace_projects_row url title state db Hwf)
      as [d [i [Hd [Hwfd [Hin [Hsel [Hid [_ [_ [Hkeep _]]]]]]]]]].
    rewrite Hd.
    destruct (IH d (if String.eqb url u then Some (title, state) else acc) Hwfd)
      as [db' [Hrun [Hwf' [Hlast Hstable]]]].
    + destruct (String.eqb_spec url u) as [-> | Hne].
      * intros t s [= <- <-]. exists (new_project i u title state).
        split; [|split; reflexivity].
        unfold projects_of.
        apply (filter_unique _ p_url); [apply Hwfd | assumption | reflexivity].
      * intros t s Ha. destruct (Hacc t s Ha) as [r [Hr [Ht Hs]]].
        exists r. split; [|split; assumption].
        assert (Hr' : In r (projects_of u db)) by (rewrite Hr; now left).
        unfold projects_of in Hr'. apply filter_In in Hr' as [Hr' Hu].
        apply String.eqb_eq in Hu.
        unfold projects_of.
        apply (filter_unique _ p_url); [apply Hwfd | | assumption].
        apply Hkeep; congruence.
    + exists db'. split; [assumption |]. split; [assumption |].
      split; [assumption |].
      intros j Hj. apply Hstable. rewrite Hsel.
      destruct (String.eqb_spec url u) as [-> | Hne]; [|assumption].
      rewrite Hj in Hid. congruence.
Qed.

(** C5.  On a consistent database, any sequence of upserts of the
    registry succeeds and leaves at most one row for each URL [u]; the
    row of [u] holds the title and the state of the last call for [u];
    and a URL that had a row keeps the rowid of that row. *)
Theorem upserts_one_row (u : string) (calls : list (string * string * string))
        (db : DB) :
  wf db ->
  exists db',
    upserts calls db = OK db' /\
    (List.length (projects_of u db') <= 1)%nat /\
    (forall title state,
       last_call u calls = Some (title, state) ->
       exists r, projects_of u db' = [r] /\ p_url r = u /\
                 p_title r = title /\ p_state r = state) /\
    (forall i, select_projects_id u db = Some i ->
               select_projects_id u db' = Some i).
Proof.
  intros Hwf.
  destruct (upserts_from u calls db None Hwf) as [db' [Hrun [Hwf' [Hlast Hst]]]].
  - discriminate.
  - exists db'. split; [assumption |].
    split; [now apply projects_of_at_most_one |].
    split; [|assumption].
    intros title state Hl. destruct (Hlast title state Hl) as [r [Hr [Ht Hs]]].
    exists r. repeat split; try assumption.
    assert (Hr' : In r (projects_of u db')) by (rewrite Hr; now left).
    unfold projects_of in Hr'. apply filter_In in Hr' as [_ Hu].
    now apply String.eqb_eq in Hu.
Qed.

(** * Units on a consistent database *)

Lemma select_contents_unique (db : DB) (r : contents_row) :
  wf db -> In r (contents db) -> select_contents_id (c_hash r) db = Some (c_id r).
Proof.
  intros Hwf Hr. unfold select_contents_id.
  rewrite (proj2 (find_unique _ c_hash (c_hash r) r (contents db) (wf_hash db Hwf)));
    [reflexivity | now split].
Qed.

Lemma upsert_unit_rows (fault : step -> bool) (p : Project) (now : Z) (db db' : DB) :
  wf db -> upsert_unit fault p now db = (None, db') ->
  exists i j,
    wf db' /\
    In (new_content i (HTMLSum p) (HTML p) (Markdown p)) (contents db') /\
    In (new_project j (URL p) (Title p) (State p)) (projects db') /\
    (forall u, select_projects_id u db' =
               if String.eqb (URL p) u then Some j else select_projects_id u db) /\
    match select_projects_id (URL p) db with
    | Some k => j = k
    | None => j = next_rowid p_id (projects db)
    end /\
    project_observations db' =
      (project_observations db ++
       [new_observation (next_rowid o_id (project_observations db)) j now i])%list.
Proof.
  intros Hwf E.
  apply upsert_unit_succeeded in E as [_ [d1 [d2 [H1 [H2 H3]]]]].
  destruct (insert_or_replace_contents_row (HTMLSum p) (HTML p) (Markdown p) db Hwf)
    as [d1' [i [Hd1 [Hwf1 [Hin1 _]]]]].
  rewrite H1 in Hd1. injection Hd1 as <-.
  destruct (insert_or_replace_contents_frame _ _ _ _ _ H1) as [_ [Ho1 _]].
  destruct (insert_or_replace_projects_row (URL p) (Title p) (State p) d1 Hwf1)
    as [d2' [j [Hd2 [Hwf2 [Hin2 [Hsel [Hid [Hc2 [Ho2 _]]]]]]]]].
  rewrite H2 in Hd2. injection Hd2 as <-.
  destruct (insert_or_replace_contents_frame _ _ _ _ _ H1) as [Hp1 _].
  pose proof (wf_insert_project_observations _ _ _ _ _ Hwf2 H3) as Hwf3.
  rewrite observations_appended in H3. injection H3 as <-.
  assert (Hsj : select_projects_id (URL p) d2 = Some j).
  { rewrite Hsel, String.eqb_refl. reflexivity. }
  assert (Hsi : select_contents_id (HTMLSum p) d2 = Some i).
  { unfold select_contents_id. rewrite Hc2.
    apply (select_contents_unique d1 _ Hwf1 Hin1). }
  exists i, j. simpl. rewrite Hsj, Hsi, Ho2, Ho1, Hc2 in Hwf3 |- *.
  split; [assumption |]. split; [assumption |]. split; [assumption |].
  split; [| split; [| reflexivity]].
  - intros u. unfold select_projects_id in *. simpl. rewrite Hsel.
    now rewrite Hp1.
  - unfold select_projects_id in *. now rewrite Hp1 in Hid.
Qed.

Lemma wf_sample_db1 : wf Sample.db1.
Proof.
  constructor; simpl;
    try (repeat constructor; simpl; tauto).
  - intros o k [<- | []]. simpl. intros [= <-]. now left.
  - intros o k [<- | []]. simpl. intros [= <-]. now left.
Qed.

Lemma put_n_dedup_witness :
  exists db' r,
    put_n (L := Sample.libs) 3 "<p>A</p>" "A" empty_db
    = (repeat (fingerprint (L := Sample.libs) "<p>A</p>") 3, OK db') /\
    contents_of (fingerprint (L := Sample.libs) "<p>A</p>") db' = [r] /\
    c_hash r = fingerprint (L := Sample.libs) "<p>A</p>" /\
    c_html r = "<p>A</p>" /\
    c_markdown r = "A" /\
    (List.length (contents db') <= S (List.length (contents empty_db)))%nat.
Proof.
  apply (put_n_dedup (L := Sample.libs) 3 "<p>A</p>" "A" empty_db wf_empty_db).
  lia.
Defined.

(** C3 as stated fails: the statement is given the sum and the body side
    by side and does not compare the body with the one stored.  A second
    call with the sum ["hA"] and another body returns no error and leaves
    the row of ["hA"] holding the new body and markdown. *)
Lemma contents_row_overwritten :
  In (new_content 1 "hA" "<p>A</p>" "A") (contents Sample.db1) /\
  exists db',
    insert_or_replace_contents "hA" "<p>B</p>" "B" Sample.db1 = OK db' /\
    contents db' = [new_content 1 "hA" "<p>B</p>" "B"].
Proof.
  split; [now left |]. eexists. split; reflexivity.
Qed.

Lemma contents_row_after_put_witness :
  exists db',
    insert_or_replace_contents "hA" "<p>B</p>" "B" Sample.db1 = OK db' /\
    (c_hash (new_content 1 "hA" "<p>A</p>" "A") <> "hA" ->
     In (new_content 1 "hA" "<p>A</p>" "A") (contents db')) /\
    (c_hash (new_content 1 "hA" "<p>A</p>" "A") = "hA" ->
     contents_of "hA" db' = [new_content 1 "hA" "<p>B</p>" "B"] /\
     (c_html (new_content 1 "hA" "<p>A</p>" "A") = "<p>B</p>" ->
      c_markdown (new_content 1 "hA" "<p>A</p>" "A") = "B" -> db' = Sample.db1)).
Proof.
  apply (contents_row_after_put "hA" "<p>B</p>" "B" Sample.db1
           (new_content 1 "hA" "<p>A</p>" "A") wf_sample_db1).
  simpl. now left.
Defined.

(** C4 as stated fails: a projects row has an id, a url, a title and a
    state, and nothing that depends on the sum of the page.  No reading of
    a projects row gives the sum of the unit that wrote it: two units
    that differ only in the page body write the same row. *)
Lemma projects_row_without_sum :
  ~ exists currentFingerprint : projects_row -> string,
      forall (p : Project) (now : Z) (db db' : DB) (r : projects_row),
        wf db ->
        upsert_unit no_fault p now db = (None, db') ->
        In r (projects db') -> p_url r = URL p ->
        currentFingerprint r = HTMLSum p.
Proof.
  intros [cf H].
  assert (HA : cf (new_project 1 "u1" "Main Street" "published") = "hA").
  { apply (H Sample.pA 10 empty_db
             (snd (upsert_unit no_fault Sample.pA 10 empty_db)) _ wf_empty_db);
      [reflexivity | now left | reflexivity]. }
  assert (HB : cf (new_project 1 "u1" "Main Street" "published") = "hB").
  { apply (H Sample.pB 10 empty_db
             (snd (upsert_unit no_fault Sample.pB 10 empty_db)) _ wf_empty_db);
      [reflexivity | now left | reflexivity]. }
  rewrite HA in HB. discriminate.
Qed.

(** C4, as the code has it.  After a unit that returned no error on a
    consistent database there is one projects row for the URL, with the
    title and the state of the unit and the rowid the URL had before, if
    it had one; there is one contents row for the sum of the unit; and the
    last row of the log refers to these two rows: the content a project
    was last seen with is the one its newest observation names. *)
Theorem upsert_unit_latest (fault : step -> bool) (p : Project) (now : Z)
        (db db' : DB) :
  wf db -> upsert_unit fault p now db = (None, db') ->
  exists pr c,
    projects_of (URL p) db' = [pr] /\
    p_title pr = Title p /\ p_state pr = State p /\
    (forall i, select_projects_id (URL p) db = Some i -> p_id pr = i) /\
    contents_of (HTMLSum p) db' = [c] /\
    c_html c = HTML p /\ c_markdown c = Markdown p /\
    project_observations db' =
      (project_observations db ++
       [new_observation (next_rowid o_id (project_observations db))
                        (p_id pr) now (c_id c)])%list.
Proof.
  intros Hwf E.
  destruct (upsert_unit_rows fault p now db db' Hwf E)
    as [i [j [Hwf' [Hc [Hp [_ [Hid Hobs]]]]]]].
  exists (new_project j (URL p) (Title p) (State p)),
         (new_content i (HTMLSum p) (HTML p) (Markdown p)).
  simpl. repeat split; try assumption.
  - unfold projects_of.
    apply (filter_unique _ p_url); [apply Hwf' | assumption | reflexivity].
  - intros k Hk. rewrite Hk in Hid. assumption.
  - unfold contents_of.
    apply (filter_unique _ c_hash); [apply Hwf' | assumption | reflexivity].
Qed.

Lemma upsert_unit_latest_witness :
  exists pr c,
    projects_of (URL Sample.pB) (snd (upsert_unit no_fault Sample.pB 11 Sample.db1)) = [pr] /\
    p_title pr = Title Sample.pB /\ p_state pr = State Sample.pB /\
    (forall i, select_projects_id (URL Sample.pB) Sample.db1 = Some i -> p_id pr = i) /\
    contents_of (HTMLSum Sample.pB) (snd (upsert_unit no_fault Sample.pB 11 Sample.db1)) = [c] /\
    c_html c = HTML Sample.pB /\ c_markdown c = Markdown Sample.pB /\
    project_observations (snd (upsert_unit no_fault Sample.pB 11 Sample.db1)) =
      (project_observations Sample.db1 ++
       [new_observation (next_rowid o_id (project_observations Sample.db1))
                        (p_id pr) 11 (c_id c)])%list.
Proof.
  apply (upsert_unit_latest no_fault Sample.pB 11 Sample.db1 _ wf_sample_db1).
  reflexivity.
Defined.

(** * The observation log *)

Lemma filter_project_fresh (db : DB) :
  wf db ->
  filter (fun o => match o_project_id o with
                   | Some k => k =? next_rowid p_id (projects db)
                   | None => false
                   end) (project_observations db) = [].
Proof.
  intros Hwf.
  destruct (filter _ (project_observations db)) as [|o t] eqn:E; [reflexivity |].
  assert (Ho : In o (o :: t)) by now left.
  rewrite <- E in Ho. apply filter_In in Ho as [Ho Hk].
  destruct (o_project_id o) as [k|] eqn:Ek; [|discriminate].
  apply Z.eqb_eq in Hk. subst k.
  apply (wf_project_id db Hwf) in Ek; [|assumption].
  now apply next_rowid_fresh in Ek.
Qed.

(** A unit that returned no error adds its observation to the
    observations of its own project and to no other's. *)
Lemma observations_of_unit (u : string) (fault : step -> bool) (p : Project)
      (now : Z) (db db' : DB) :
  wf db -> upsert_unit fault p now db = (None, db') ->
  exists o,
    project_observations db' = (project_observations db ++ [o])%list /\
    observations_of u db' =
      (observations_of u db ++ if String.eqb (URL p) u then [o] else [])%list.
Proof.
  intros Hwf E.
  destruct (upsert_unit_rows fault p now db db' Hwf E)
    as [i [j [Hwf' [Hc [Hp [Hsel [Hid Hobs]]]]]]].
  eexists. split; [exact Hobs |].
  unfold observations_of. rewrite Hsel, Hobs.
  destruct (String.eqb_spec (URL p) u) as [Hu | Hu].
  - subst u. rewrite filter_app. simpl. rewrite Z.eqb_refl. f_equal.
    destruct (select_projects_id (URL p) db) as [k|]; [now subst |].
    subst j. now apply filter_project_fresh.
  - destruct (select_projects_id u db) as [k|] eqn:Ek; [|reflexivity].
    rewrite filter_app. simpl.
    destruct (Z.eqb_spec j k) as [Hjk | Hjk]; [|reflexivity].
    exfalso. subst k.
    assert (Hk' : select_projects_id u db' = Some j).
    { rewrite Hsel. now rewrite (proj2 (String.eqb_neq _ _) Hu). }
    apply select_projects_in in Hk' as [r [Hr [Hru Hrj]]].
    assert (r = new_project j (URL p) (Title p) (State p)).
    { apply (keyed_inj _ p_id (projects db')); auto. apply Hwf'. }
    subst r. simpl in Hru. congruence.
Qed.

Lemma run_units_log (u : string) (us : list unit_call) :
  forall db, wf db ->
    exists appended,
      project_observations (snd (run_units u us db)) =
        (project_observations db ++ appended)%list /\
      List.length (observations_of u (snd (run_units u us db))) =
        (List.length (observations_of u db) + fst (run_units u us db))%nat.
Proof.
  induction us as [|c us IH]; intros db Hwf; simpl.
  - exists []. rewrite app_nil_r. split; [reflexivity | lia].
  - destruct (upsert_unit (u_fault c) (u_project c) (u_now c) db) as [e d] eqn:E.
    assert (Hwfd : wf d).
    { pose proof (wf_upsert_unit (u_fault c) (u_project c) (u_now c) db Hwf) as H.
      now rewrite E in H. }
    destruct (IH d Hwfd) as [app [Happ Hlen]].
    destruct (run_units u us d) as [n d'] eqn:Er. simpl in *.
    destruct e as [e|].
    + apply upsert_unit_failed in E. subst d. exists app. split; assumption.
    + destruct (observations_of_unit u _ _ _ _ _ Hwf E) as [o [Ho Hou]].
      exists (o :: app). split.
      * rewrite Happ, Ho, <- app_assoc. reflexivity.
      * rewrite Hlen, Hou, length_app.
        destruct (String.eqb (URL (u_project c)) u); simpl; lia.
Qed.

Lemma faultless_true (fault : step -> bool) :
  faultless fault = true <-> forall st, fault st = false.
Proof.
  unfold faultless. rewrite forallb_forall. split.
  - intros H st. apply negb_true_iff. apply H. destruct st; simpl; tauto.
  - intros H st _. now rewrite H.
Qed.

(** On a consistent database a unit returns no error exactly when no call
    of its transaction meets a fault. *)
Lemma upsert_unit_faultless (fault : step -> bool) (p : Project) (now : Z)
      (db : DB) :
  wf db ->
  match upsert_unit fault p now db with
  | (None, _) => faultless fault = true
  | (Some _, _) => faultless fault = false
  end.
Proof.
  intros Hwf. destruct (faultless fault) eqn:E.
  - destruct (upsert_unit_runs fault p now db Hwf
                (proj1 (faultless_true fault) E))
      as [d1 [d2 [db' [_ [_ [_ [Hu _]]]]]]].
    now rewrite Hu.
  - assert (Hst : exists st, fault st = true).
    { unfold faultless in E. apply not_true_iff_false in E.
      destruct (fault Begin) eqn:F0; [eauto |].
      destruct (fault ExecContents) eqn:F1; [eauto |].
      destruct (fault ExecProjects) eqn:F2; [eauto |].
      destruct (fault ExecObservations) eqn:F3; [eauto |].
      destruct (fault Commit) eqn:F4; [eauto |].
      exfalso. apply E. simpl. now rewrite F0, F1, F2, F3, F4. }
    destruct Hst as [st Hst].
    destruct (upsert_unit_fault fault p now db st Hst) as [e He].
    now rewrite He.
Qed.

Lemma run_units_count (u : string) (us : list unit_call) :
  forall db, wf db ->
    fst (run_units u us db) = List.length (sound_units u us).
Proof.
  induction us as [|c us IH]; intros db Hwf; [reflexivity |].
  cbn [run_units sound_units filter].
  pose proof (upsert_unit_faultless (u_fault c) (u_project c) (u_now c) db Hwf) as Hf.
  pose proof (wf_upsert_unit (u_fault c) (u_project c) (u_now c) db Hwf) as Hw.
  destruct (upsert_unit (u_fault c) (u_project c) (u_now c) db) as [e d].
  simpl in Hw. specialize (IH d Hw).
  destruct (run_units u us d) as [n d']. simpl in IH. subst n.
  fold (sound_units u us).
  destruct e as [e|]; rewrite Hf; simpl.
  - now rewrite andb_false_r.
  - rewrite andb_true_r.
    destruct (String.eqb (URL (u_project c)) u); reflexivity.
Qed.

(** C6.  The log only grows at its end.  The third statement never
    fails: on any database it inserts exactly one row, after the rows that
    were there, with the ids it selects for the URL and the sum.  On a
    consistent database a unit returns no error exactly when no call of
    its transaction meets a fault, and it then appends exactly one row and
    leaves the rows before it as they were; a unit that returns an error
    adds none.  So after any sequence of units the log is the old log
    followed by new rows, and the observations of a project are those it
    had plus one for each unit for its URL that met no fault, which are
    the units for its URL that returned no error, whether or not the page
    body had changed. *)
Theorem observations_append_only (u : string) (us : list unit_call) (db : DB) :
  wf db ->
  (forall url now hash,
      exists db',
        insert_project_observations url now hash db = OK db' /\
        project_observations db' =
          (project_observations db ++
           [{| o_id := next_rowid o_id (project_observations db);
               o_project_id := select_projects_id url db;
               o_t := now;
               o_content_id := select_contents_id hash db |}])%list) /\
  (forall fault p now,
      match upsert_unit fault p now db with
      | (None, db') =>
          faultless fault = true /\
          exists o, project_observations db' = (project_observations db ++ [o])%list
      | (Some _, db') =>
          faultless fault = false /\
          project_observations db' = project_observations db
      end) /\
  exists appended,
    project_observations (snd (run_units u us db)) =
      (project_observations db ++ appended)%list /\
    fst (run_units u us db) = List.length (sound_units u us) /\
    List.length (observations_of u (snd (run_units u us db))) =
      (List.length (observations_of u db) + List.length (sound_units u us))%nat.
Proof.
  intros Hwf. split; [| split].
  - intros url now hash. eexists. split; [apply observations_appended |].
    reflexivity.
  - intros fault p now.
    pose proof (upsert_unit_faultless fault p now db Hwf) as Hf.
    destruct (upsert_unit fault p now db) as [[e|] db'] eqn:E.
    + split; [exact Hf |]. apply upsert_unit_failed in E. now subst.
    + split; [exact Hf |].
      destruct (observations_of_unit u _ _ _ _ _ Hwf E) as [o [Ho _]]. eauto.
  - destruct (run_units_log u us db Hwf) as [appended [Happ Hlen]].
    exists appended. split; [exact Happ |].
    split; [now apply run_units_count |].
    now rewrite Hlen, run_units_count.
Qed.

Lemma observations_append_only_witness :
  (forall url now hash,
      exists db',
        insert_project_observations url now hash Sample.db1 = OK db' /\
        project_observations db' =
          (project_observations Sample.db1 ++
           [{| o_id := next_rowid o_id (project_observations Sample.db1);
               o_project_id := select_projects_id url Sample.db1;
               o_t := now;
               o_content_id := select_contents_id hash Sample.db1 |}])%list) /\
  (forall fault p now,
      match upsert_unit fault p now Sample.db1 with
      | (None, db') =>
          faultless fault = true /\
          exists o, project_observations db' =
                    (project_observations Sample.db1 ++ [o])%list
      | (Some _, db') =>
          faultless fault = false /\
          project_observations db' = project_observations Sample.db1
      end) /\
  exists appended,
    project_observations (snd (run_units "u1" sample_units Sample.db1)) =
      (project_observations Sample.db1 ++ appended)%list /\
    fst (run_units "u1" sample_units Sample.db1)
    = List.length (sound_units "u1" sample_units) /\
    List.length (observations_of "u1" (snd (run_units "u1" sample_units Sample.db1))) =
      (List.length (observations_of "u1" Sample.db1)
       + List.length (sound_units "u1" sample_units))%nat.
Proof.
  apply (observations_append_only "u1" sample_units Sample.db1 wf_sample_db1).
Defined.

(** * Runs keep the database consistent *)

Section Consistency.
Context {L : Libraries}.

Lemma wf_crawl (w : World) (abs : string -> string) (projects : list Project) :
  forall i db, wf db -> wf (snd (crawl w abs i projects db)).
Proof.
  induction projects as [|p rest IH]; intros i db Hwf; simpl; [assumption |].
  destruct (get w (S i) (URL p) [sel_yield]) as [[|sels0 sels]|e]; simpl;
    try assumption.
  destruct (scrape abs p sels0) as [p'|e]; simpl; [|assumption].
  pose proof (wf_upsert_unit (disk w i) p' (Now w i) db Hwf) as Hu.
  destruct (upsert_unit (disk w i) p' (Now w i) db) as [[e|] db'];
    simpl in *; [assumption | now apply IH].
Qed.

(** A run, whatever its outcome, leaves the tables as the schema wants
    them: rowids and sums and URLs without repetition, and every
    reference of an observation pointing at a row that exists. *)
Lemma wf_run (w : World) (onlyURLs : list string) (db : DB) :
  wf db -> wf (snd (run w onlyURLs db)).
Proof.
  intros Hwf. unfold run.
  destruct (setup w); [assumption |].
  destruct (url_Parse projects_page); [|assumption].
  destruct (get w 0 projects_page [sel_project_tile]) as [[|tiles sels]|e];
    try assumption.
  now apply wf_crawl.
Qed.
End Consistency.

(** * The discovery filter *)

Lemma discover_from (abs : string -> string) (onlyURLs : list string)
      (tiles : Selection) :
  forall acc : list Project,
    fold_left
      (fun projects project =>
         let p := tile_project abs project in
         if String.eqb (URL p) landing_page then projects
         else if (0 <? List.length onlyURLs)%nat
                 && negb (Contains onlyURLs (URL p)) then projects
         else (projects ++ [p])%list)
      tiles acc
    = (acc ++ filter (kept onlyURLs) (map (tile_project abs) tiles))%list.
Proof.
  induction tiles as [|t tiles IH]; intros acc; cbn [fold_left map filter].
  - now rewrite app_nil_r.
  - rewrite IH. unfold kept at 2. cbv zeta.
    destruct (String.eqb (URL (tile_project abs t)) landing_page);
      cbn [negb andb]; [reflexivity |].
    destruct onlyURLs as [|o only].
    + cbn [List.length Nat.ltb Nat.leb andb]. now rewrite <- app_assoc.
    + change (0 <? List.length (o :: only))%nat with true.
      destruct (Contains (o :: only) (URL (tile_project abs t)));
        cbn [negb andb]; [now rewrite <- app_assoc | reflexivity].
Qed.

Lemma Contains_In (l : list string) (s : string) :
  Contains l s = true <-> In s l.
Proof.
  unfold Contains. rewrite existsb_exists. split.
  - intros [x [Hx E]]. apply String.eqb_eq in E. now subst.
  - intros H. exists s. split; [assumption | apply String.eqb_refl].
Qed.

(** C8.  The projects that [run] goes on to process are the tiles of
    the projects page, in their order, without those whose URL is the
    landing page and, when URLs were given, without those whose URL is
    not among them.  With no URLs given all tiles but the landing page
    are processed; the landing page is left out even when it is among
    the URLs given. *)
Theorem discover_filter (abs : string -> string) (onlyURLs : list string)
        (tiles : Selection) :
  discover abs onlyURLs tiles
  = filter (kept onlyURLs) (map (tile_project abs) tiles) /\
  (forall p,
      In p (discover abs onlyURLs tiles) <->
      In p (map (tile_project abs) tiles) /\
      URL p <> landing_page /\
      (onlyURLs = [] \/ In (URL p) onlyURLs)) /\
  discover abs [] tiles
  = filter (fun p => negb (String.eqb (URL p) landing_page))
           (map (tile_project abs) tiles) /\
  (forall p, In landing_page onlyURLs ->
             In p (discover abs onlyURLs tiles) -> URL p <> landing_page).
Proof.
  assert (Hd : forall only, discover abs only tiles
               = filter (kept only) (map (tile_project abs) tiles)).
  { intros only. unfold discover. now rewrite discover_from. }
  assert (Hin : forall p,
             In p (discover abs onlyURLs tiles) <->
             In p (map (tile_project abs) tiles) /\
             URL p <> landing_page /\
             (onlyURLs = [] \/ In (URL p) onlyURLs)).
  { intros p. rewrite Hd, filter_In. unfold kept.
    rewrite andb_true_iff, negb_true_iff, String.eqb_neq.
    destruct onlyURLs as [|o only].
    - intuition.
    - rewrite Contains_In. intuition discriminate. }
  split; [apply Hd |]. split; [exact Hin |]. split.
  - rewrite Hd. apply filter_ext. intros p. unfold kept.
    now rewrite andb_true_r.
  - intros p _ Hp. now apply Hin in Hp.
Qed.

(** * Pages *)

(** Induction on a page, with the hypothesis for every child. *)
Lemma node_induction (P : node -> Prop) :
  (forall s, P (Text s)) ->
  (forall s, P (Comment s)) ->
  (forall t a kids, Forall P kids -> P (Element t a kids)) ->
  forall n, P n.
Proof.
  intros HT HC HE.
  fix IH 1. intros [s | s | t a kids].
  - apply HT.
  - apply HC.
  - apply HE. induction kids as [|k kids IHk]; constructor.
    + apply IH.
    + apply IHk.
Qed.

Lemma Forall2_flat_map {A B C} (R : B -> C -> Prop) (g : A -> list B)
      (h : A -> list C) (l : list A) :
  Forall (fun k => Forall2 R (g k) (h k)) l ->
  Forall2 R (flat_map g l) (flat_map h l).
Proof.
  induction 1 as [|k l Hk _ IH]; simpl; [constructor |].
  now apply Forall2_app.
Qed.

Lemma Forall2_compose {A} (R1 R2 R : A -> A -> Prop) (l1 l2 l3 : list A) :
  (forall a b c, R1 a b -> R2 b c -> R a c) ->
  Forall2 R1 l1 l2 -> Forall2 R2 l2 l3 -> Forall2 R l1 l3.
Proof.
  intros HR H12. revert l3.
  induction H12 as [|a b l1 l2 Hab _ IH]; intros l3 H23; inversion H23; subst.
  - constructor.
  - constructor; [eapply HR; eassumption | now apply IH].
Qed.

Lemma flat_map_map {A B C} (f : A -> B) (g : B -> list C) (l : list A) :
  flat_map g (map f l) = flat_map (fun x => g (f x)) l.
Proof.
  induction l as [|x l IH]; simpl; [reflexivity | now rewrite IH].
Qed.

Lemma subtree_retouch (m : node -> bool)
      (f : list (string * string) -> list (string * string)) (n : node) :
  Forall2 (touched m f) (subtree n) (subtree (retouch m f n)).
Proof.
  induction n as [s | s | t a kids IH] using node_induction.
  - simpl. constructor; [reflexivity | constructor].
  - simpl. constructor; [reflexivity | constructor].
  - cbn [retouch subtree]. constructor.
    + simpl. split; reflexivity.
    + rewrite flat_map_map. now apply Forall2_flat_map.
Qed.

(** The nodes below a node of [sels[0]] after a loop over what [Find]
    gives. *)
Lemma descendants_Find_Each (s : selector)
      (f : list (string * string) -> list (string * string)) (sel : Selection) :
  Forall2 (fun r r' => Forall2 (touched (matches s) f)
                               (descendants r) (descendants r'))
          sel (Find_Each s f sel).
Proof.
  induction sel as [|r sel IH]; simpl; constructor; [|exact IH].
  destruct r as [d | d | t a kids]; simpl; try constructor.
  unfold descendants. simpl. rewrite flat_map_map.
  apply Forall2_flat_map. apply Forall_forall. intros k _.
  apply subtree_retouch.
Qed.

Lemma get_set_attr (k v : string) (a : list (string * string)) :
  get_attr k (set_attr k v a) = Some v.
Proof.
  induction a as [|[k' v'] a IH]; simpl.
  - now rewrite String.eqb_refl.
  - destruct (String.eqb k' k) eqn:E; simpl; now rewrite E.
Qed.

Section Links.
Context {L : Libraries}.

Lemma linked_compose (abs : string -> string) (a b c : node) :
  touched (matches (ByTag "a"))
          (fun a => set_attr "href" (abs (attr_or "href" EmptyString a)) a) a b ->
  touched (matches (ByTag "img"))
          (fun a => set_attr "src" (abs (attr_or "src" EmptyString a)) a) b c ->
  linked abs a c.
Proof.
  destruct a as [s | s | t at_ ks], b as [s' | s' | t' at' ks'],
           c as [s'' | s'' | t'' at'' ks'']; simpl; try tauto; try congruence.
  intros [-> ->] [-> ->].
  destruct (String.eqb_spec t "a") as [-> | Ha]; simpl.
  - repeat split; try congruence. intros _. apply get_set_attr.
  - destruct (String.eqb_spec t "img") as [-> | Hi].
    + repeat split; try congruence. intros _. apply get_set_attr.
    + repeat split; congruence.
Qed.

(** C10.  With [base] the parsed projects URL, the two loops leave every
    node below [sels[0]] in place and give every anchor the [href], and
    every image the [src], that [abs] returns for the value the attribute
    had, the empty string standing for a missing attribute.  [abs]
    returns the reference resolved against [base], and the empty string
    for a value that does not parse; it returns no error. *)
Theorem absolutize_links (base : url_value) (sels0 : Selection) :
  url_Parse projects_page = Some base ->
  Forall2 (fun r r' => Forall2 (linked (abs base))
                               (descendants r) (descendants r'))
          sels0 (absolutize (abs base) sels0) /\
  (forall s rel, url_Parse s = Some rel ->
                 abs base s = url_String (ResolveReference base rel)) /\
  (forall s, url_Parse s = None -> abs base s = EmptyString).
Proof.
  intros _. split; [| split].
  - unfold absolutize.
    eapply Forall2_compose;
      [| apply descendants_Find_Each | apply descendants_Find_Each].
    intros r1 r2 r3 H12 H23.
    eapply Forall2_compose; [| exact H12 | exact H23].
    apply linked_compose.
  - intros s rel H. unfold abs. now rewrite H.
  - intros s H. unfold abs. now rewrite H.
Qed.
End Links.

Lemma absolutize_links_witness :
  Forall2 (fun r r' => Forall2 (linked (abs (L := Sample.libs) projects_page))
                               (descendants r) (descendants r'))
          [sample_yield]
          (absolutize (abs (L := Sample.libs) projects_page) [sample_yield]) /\
  (forall s rel, url_Parse (Libraries := Sample.libs) s = Some rel ->
                 abs (L := Sample.libs) projects_page s
                 = url_String (ResolveReference (Libraries := Sample.libs)
                                                projects_page rel)) /\
  (forall s, url_Parse (Libraries := Sample.libs) s = None ->
             abs (L := Sample.libs) projects_page s = EmptyString).
Proof.
  apply (absolutize_links (L := Sample.libs) projects_page [sample_yield]).
  reflexivity.
Defined.

(** * Pages without the expected element *)

Section Extraction.
Context {L : Libraries}.

(** [get] never takes the branch for a nil selection: with an answer to
    the request it returns one selection for each selector, empty when
    nothing matches. *)
Lemma get_loop_all (doc : document) (selectors : list selector) :
  forall sels,
    get_loop doc selectors sels
    = OK (sels ++ map (fun s => found_in s (top doc)) selectors)%list.
Proof.
  induction selectors as [|s selectors IH]; intros sels; simpl.
  - now rewrite app_nil_r.
  - rewrite IH, <- app_assoc. reflexivity.
Qed.

Lemma scrape_nothing (abs : string -> string) (p : Project) (markdown : string) :
  ConvertString (gohtml_Format EmptyString) = Some markdown ->
  scrape abs p [] = OK (blank_project p markdown).
Proof.
  intros H. unfold scrape. cbn. rewrite H. reflexivity.
Qed.

(** C9, what the code does.  When the page of a project answers the
    request but has no element with the id [yield], [get] returns no
    error and an empty selection; [scrape] makes of it a project with
    an empty title and the formatted empty body; and, the conversion and
    the storage not failing, the unit for it is committed: a contents
    row for the sum of that body, the projects row with the empty title,
    and one more observation.  The crawl then goes on with the next
    project. *)
Theorem crawl_page_without_yield (w : World) (abs : string -> string)
        (i : nat) (p : Project) (rest : list Project) (db : DB)
        (doc : document) (markdown : string) :
  wf db ->
  http_Get w (S i) (URL p) = Some doc ->
  found_in sel_yield (top doc) = [] ->
  ConvertString (gohtml_Format EmptyString) = Some markdown ->
  (forall st, disk w i st = false) ->
  get w (S i) (URL p) [sel_yield] = OK [[]] /\
  exists db' pr c o,
    upsert_unit (disk w i) (blank_project p markdown) (Now w i) db = (None, db') /\
    crawl w abs i (p :: rest) db = crawl w abs (S i) rest db' /\
    projects_of (URL p) db' = [pr] /\ p_title pr = EmptyString /\
    contents_of (fingerprint (gohtml_Format EmptyString)) db' = [c] /\
    c_html c = gohtml_Format EmptyString /\
    project_observations db' = (project_observations db ++ [o])%list /\
    o_project_id o = Some (p_id pr) /\ o_content_id o = Some (c_id c).
Proof.
  intros Hwf Hget Hnone Hconv Hdisk.
  assert (Hg : get w (S i) (URL p) [sel_yield] = OK [[]]).
  { unfold get. rewrite Hget, get_loop_all. simpl. now rewrite Hnone. }
  split; [exact Hg |].
  destruct (upsert_unit_runs (disk w i) (blank_project p markdown) (Now w i) db
              Hwf Hdisk) as [d1 [d2 [db' [_ [_ [_ [Hu _]]]]]]].
  destruct (upsert_unit_rows _ _ _ _ _ Hwf Hu)
    as [ci [pj [Hwf' [Hc [Hp [_ [_ Ho]]]]]]].
  exists db', (new_project pj (URL p) EmptyString (State p)),
         (new_content ci (fingerprint (gohtml_Format EmptyString))
                      (gohtml_Format EmptyString) markdown).
  eexists.
  split; [exact Hu |]. split.
  - cbn [crawl]. rewrite Hg, (scrape_nothing abs p markdown Hconv), Hu.
    reflexivity.
  - split; [unfold projects_of; apply (filter_unique _ p_url);
            [apply Hwf' | exact Hp | reflexivity] |].
    split; [reflexivity |].
    split; [unfold contents_of; apply (filter_unique _ c_hash);
            [apply Hwf' | exact Hc | reflexivity] |].
    split; [reflexivity |].
    split; [exact Ho |]. split; reflexivity.
Qed.
End Extraction.

Lemma crawl_page_without_yield_witness :
  get sample_world 1 (URL Sample.pA) [sel_yield] = OK [[]] /\
  exists db' pr c o,
    upsert_unit (disk sample_world 0)
      (blank_project (L := Sample.libs) Sample.pA EmptyString)
      (Now sample_world 0) Sample.db1 = (None, db') /\
    crawl (L := Sample.libs) sample_world (fun s => s) 0 [Sample.pA] Sample.db1
    = crawl (L := Sample.libs) sample_world (fun s => s) 1 [] db' /\
    projects_of (URL Sample.pA) db' = [pr] /\ p_title pr = EmptyString /\
    contents_of (fingerprint (L := Sample.libs)
                   (gohtml_Format (Libraries := Sample.libs) EmptyString)) db' = [c] /\
    c_html c = gohtml_Format (Libraries := Sample.libs) EmptyString /\
    project_observations db' = (project_observations Sample.db1 ++ [o])%list /\
    o_project_id o = Some (p_id pr) /\ o_content_id o = Some (c_id c).
Proof.
  apply (crawl_page_without_yield (L := Sample.libs) sample_world (fun s => s)
           0 Sample.pA [] Sample.db1 sample_page_without_yield EmptyString
           wf_sample_db1);
    reflexivity.
Defined.

(** * The sum *)

Lemma in_insert_or_replace {row} (rowid : row -> Z) (clash : row -> bool)
      (x r : row) (tbl : list row) :
  In r (insert_or_replace rowid clash x tbl) -> r = x \/ In r tbl.
Proof.
  unfold insert_or_replace, delete_where. rewrite in_insert_row, filter_In.
  tauto.
Qed.

Section Sum.
Context {L : Libraries}.

Lemma scrape_sum (abs : string -> string) (p p' : Project) (sels0 : Selection) :
  scrape abs p sels0 = OK p' -> HTMLSum p' = fingerprint (HTML p').
Proof.
  unfold scrape. cbv zeta.
  generalize (Text_of (First (Find (ByTag "h1") (absolutize abs (strip sels0))))).
  generalize (gohtml_Format (Html (absolutize abs (strip sels0)))).
  intros html title.
  destruct (ConvertString html); [|discriminate].
  intros H. injection H as <-. reflexivity.
Qed.

Lemma addressed_upsert_unit (fault : step -> bool) (p : Project) (now : Z)
      (db : DB) :
  HTMLSum p = fingerprint (HTML p) -> addressed db ->
  addressed (snd (upsert_unit fault p now db)).
Proof.
  intros Hp Hdb.
  destruct (upsert_unit fault p now db) as [[e|] db'] eqn:E; simpl.
  - apply upsert_unit_failed in E. now subst.
  - apply upsert_unit_succeeded in E as [_ [d1 [d2 [H1 [H2 H3]]]]].
    destruct (insert_or_replace_projects_frame _ _ _ _ _ H2) as [Hc2 _].
    rewrite observations_appended in H3. injection H3 as <-.
    intros r Hr. simpl in Hr. rewrite Hc2 in Hr.
    unfold insert_or_replace_contents in H1.
    destruct (parents_kept _ _ _); [|discriminate].
    injection H1 as <-. simpl in Hr.
    apply in_insert_or_replace in Hr as [-> | Hr]; [exact Hp | now apply Hdb].
Qed.

Lemma addressed_crawl (w : World) (abs : string -> string)
      (projects : list Project) :
  forall i db, addressed db -> addressed (snd (crawl w abs i projects db)).
Proof.
  induction projects as [|p rest IH]; intros i db Hdb; simpl; [assumption |].
  destruct (get w (S i) (URL p) [sel_yield]) as [[|sels0 sels]|e]; simpl;
    try assumption.
  destruct (scrape abs p sels0) as [p'|e] eqn:Es; simpl; [|assumption].
  pose proof (addressed_upsert_unit (disk w i) p' (Now w i) db
                (scrape_sum _ _ _ _ Es) Hdb) as Hu.
  destruct (upsert_unit (disk w i) p' (Now w i) db) as [[e|] db'];
    simpl in *; [assumption | now apply IH].
Qed.

(** Every contents row is stored under the sum of its own body, and a
    run keeps it so: the row a unit writes holds the body that [scrape]
    summed, also when it replaces the row of a sum that was there. *)
Theorem run_addressed (w : World) (onlyURLs : list string) (db : DB) :
  addressed db -> addressed (snd (run w onlyURLs db)).
Proof.
  intros Hdb. unfold run.
  destruct (setup w); [assumption |].
  destruct (url_Parse projects_page); [|assumption].
  destruct (get w 0 projects_page [sel_project_tile]) as [[|tiles sels]|e];
    try assumption.
  now apply addressed_crawl.
Qed.
End Sum.

Lemma run_addressed_witness :
  addressed (L := Sample.libs)
    (snd (run (L := Sample.libs) sample_crawl [] empty_db)).
Proof.
  apply (run_addressed (L := Sample.libs) sample_crawl [] empty_db).
  intros r [].
Defined.

(** * Examples *)

Lemma upserts_one_row_witness :
  exists db',
    upserts sample_calls Sample.db1 = OK db' /\
    (List.length (projects_of "u1" db') <= 1)%nat /\
    (forall title state,
       last_call "u1" sample_calls = Some (title, state) ->
       exists r, projects_of "u1" db' = [r] /\ p_url r = "u1" /\
                 p_title r = title /\ p_state r = state) /\
    (forall i, select_projects_id "u1" Sample.db1 = Some i ->
               select_projects_id "u1" db' = Some i).
Proof.
  apply (upserts_one_row "u1" sample_calls Sample.db1 wf_sample_db1).
Defined.

(** A page seen with body A, again with body A, then with body B: one
    contents row, then two; one projects row throughout; three
    observations, the last for the second contents row. *)
Example three_crawls :
  let d1 := snd (upsert_unit no_fault Sample.pA 10 empty_db) in
  let d2 := snd (upsert_unit no_fault Sample.pA 11 d1) in
  let d3 := snd (upsert_unit no_fault Sample.pB 12 d2) in
  d1 = Sample.db1 /\
  contents d2 = contents d1 /\ projects d2 = projects d1 /\
  project_observations d2 = [new_observation 1 1 10 1; new_observation 2 1 11 1] /\
  contents d3 = [new_content 1 "hA" "<p>A</p>" "A"; new_content 2 "hB" "<p>B</p>" "B"] /\
  projects d3 = projects d1 /\
  project_observations d3 =
    [new_observation 1 1 10 1; new_observation 2 1 11 1; new_observation 3 1 12 2].
Proof. repeat split. Qed.

(** A fault at any call of the transaction leaves the database as it was. *)
Example unit_with_fault :
  forall st, upsert_unit (Sample.fail_at st) Sample.pB 11 Sample.db1
             = (Some ErrStorage, Sample.db1).
Proof. intros []; reflexivity. Qed.

(** The projects found on the sample page, without and with URLs given. *)
Example discover_all :
  map URL (discover (abs (L := Sample.libs) projects_page) []
             (found_in sel_project_tile (top sample_projects_page)))
  = [ "https://www.shapeyourcityhalifax.ca/main-street";
      "https://www.shapeyourcityhalifax.ca/park" ].
Proof. reflexivity. Qed.

Example discover_only :
  map URL (discover (abs (L := Sample.libs) projects_page)
             [landing_page; "https://www.shapeyourcityhalifax.ca/park"]
             (found_in sel_project_tile (top sample_projects_page)))
  = [ "https://www.shapeyourcityhalifax.ca/park" ].
Proof. reflexivity. Qed.

(** The links of the sample page after the two loops; the script is
    gone after [strip]. *)
Example absolutize_sample :
  absolutize (abs (L := Sample.libs) projects_page) (strip [sample_yield])
  = [ Element "div" [("id", "yield")]
        [ Element "h1" [] [Text "Main Street"];
          Element "a" [("class", "more");
                       ("href", "https://www.shapeyourcityhalifax.ca/main-street/news")]
            [Text "news"];
          Element "img" [("alt", "map");
                         ("src", "https://www.shapeyourcityhalifax.ca/projects")] [];
          Element "a" [("href", "")] [Text "broken"] ] ].
Proof. reflexivity. Qed.

(** Without the flag [-urls] every project found is processed. *)
Example main_all :
  main (L := Sample.libs) sample_crawl "" empty_db
  = run (L := Sample.libs) sample_crawl [] empty_db.
Proof. reflexivity. Qed.

Example split_urls : split_comma "u1,u2" = ["u1"; "u2"].
Proof. reflexivity. Qed.

(** A whole run: the first project page has its content; the second has
    no element [yield] and is stored all the same, with an empty title
    and an empty body. *)
Example run_sample :
  fst (run (L := Sample.libs) sample_crawl [] empty_db) = None /\
  map p_title (projects (snd (run (L := Sample.libs) sample_crawl [] empty_db)))
  = ["Main Street"; ""] /\
  map c_html (contents_of "" (snd (run (L := Sample.libs) sample_crawl [] empty_db)))
  = [""] /\
  List.length (project_observations
                 (snd (run (L := Sample.libs) sample_crawl [] empty_db))) = 2%nat.
Proof. vm_compute. repeat split; reflexivity. Qed.

(** * More on [get] and on the errors of a run *)

(** [get] fails only when the request does; otherwise it returns one
    selection for each selector, in order, holding every element of the
    page that the selector matches, and an empty one when none does.  It
    never returns the empty slice that its test for nil provides for. *)
Theorem get_answered (w : World) (n : nat) (u : string)
        (selectors : list selector) :
  get w n u selectors =
  match http_Get w n u with
  | None => Err ErrTransport
  | Some doc => OK (map (fun s => found_in s (top doc)) selectors)
  end.
Proof.
  unfold get. destruct (http_Get w n u) as [doc|]; [|reflexivity].
  now rewrite get_loop_all.
Qed.

Lemma get_one (w : World) (n : nat) (u : string) (s : selector) :
  get w n u [s] =
  match http_Get w n u with
  | None => Err ErrTransport
  | Some doc => OK [found_in s (top doc)]
  end.
Proof.
  unfold get. destruct (http_Get w n u) as [doc|]; [|reflexivity].
  now rewrite get_loop_all.
Qed.

Lemma insert_or_replace_contents_error (hash html markdown : string) (db : DB)
      (e : error) :
  insert_or_replace_contents hash html markdown db = Err e -> e = ErrConstraint.
Proof.
  unfold insert_or_replace_contents.
  destruct (parents_kept _ _ _); [discriminate | congruence].
Qed.

Lemma insert_or_replace_projects_error (url title state : string) (db : DB)
      (e : error) :
  insert_or_replace_projects url title state db = Err e -> e = ErrConstraint.
Proof.
  unfold insert_or_replace_projects.
  destruct (parents_kept _ _ _); [discriminate | congruence].
Qed.

Lemma insert_project_observations_error (url : string) (now : Z) (hash : string)
      (db : DB) (e : error) :
  insert_project_observations url now hash db = Err e -> e = ErrConstraint.
Proof.
  rewrite observations_appended. discriminate.
Qed.

Lemma upsert_unit_errors (fault : step -> bool) (p : Project) (now : Z)
      (db db' : DB) (e : error) :
  upsert_unit fault p now db = (Some e, db') ->
  e = ErrStorage \/ e = ErrConstraint.
Proof.
  rewrite upsert_unit_unfold.
  destruct (fault Begin); [intros [= <- _]; now left |].
  destruct (fault ExecContents); [intros [= <- _]; now left |].
  destruct (insert_or_replace_contents _ _ _ db) as [d1|e1] eqn:H1;
    [| intros [= <- _]; right;
       now apply insert_or_replace_contents_error in H1].
  destruct (fault ExecProjects); [intros [= <- _]; now left |].
  destruct (insert_or_replace_projects _ _ _ d1) as [d2|e2] eqn:H2;
    [| intros [= <- _]; right;
       now apply insert_or_replace_projects_error in H2].
  destruct (fault ExecObservations); [intros [= <- _]; now left |].
  destruct (insert_project_observations _ _ _ d2) as [d3|e3] eqn:H3;
    [| intros [= <- _]; right;
       now apply insert_project_observations_error in H3].
  destruct (fault Commit); [intros [= <- _]; now left | discriminate].
Qed.

Section RunErrors.
Context {L : Libraries}.

Lemma scrape_errors (abs : string -> string) (p : Project) (sels0 : Selection)
      (e : error) :
  scrape abs p sels0 = Err e -> e = ErrConvert.
Proof.
  unfold scrape. cbv zeta.
  destruct (ConvertString _); [discriminate | congruence].
Qed.

Lemma crawl_errors (w : World) (abs : string -> string) (projects : list Project) :
  forall i db e,
    fst (crawl w abs i projects db) = Some e ->
    In e [ErrTransport; ErrConvert; ErrStorage; ErrConstraint].
Proof.
  induction projects as [|p rest IH]; intros i db e; cbn [crawl].
  - discriminate.
  - rewrite get_one.
    destruct (http_Get w (S i) (URL p)) as [doc|];
      [| intros [= <-]; simpl; tauto].
    destruct (scrape abs p (found_in sel_yield (top doc))) as [p'|e'] eqn:Es.
    + destruct (upsert_unit (disk w i) p' (Now w i) db) as [[e'|] db'] eqn:Eu.
      * intros [= <-]. apply upsert_unit_errors in Eu as [-> | ->]; simpl; tauto.
      * apply IH.
    + intros [= <-]. apply scrape_errors in Es. subst. simpl; tauto.
Qed.

(** The error that [run] returns is the one of the set-up, or comes from
    parsing the projects URL, from a request, from the conversion to
    markdown or from the transaction.  The index [sels[0]] is always
    within the slice: no run stops on it. *)
Theorem run_errors (w : World) (onlyURLs : list string) (db : DB) (e : error) :
  fst (run w onlyURLs db) = Some e ->
  setup w = Some e \/
  In e [ErrURL; ErrTransport; ErrConvert; ErrStorage; ErrConstraint].
Proof.
  unfold run. destruct (setup w) as [e0|]; [intros [= <-]; now left |].
  intros H. right.
  destruct (url_Parse projects_page) as [base|];
    [| injection H as <-; simpl; tauto].
  rewrite get_one in H.
  destruct (http_Get w 0 projects_page) as [doc|];
    [| injection H as <-; simpl; tauto].
  apply crawl_errors in H. simpl in *. tauto.
Qed.
End RunErrors.

Lemma run_errors_witness :
  setup sample_outage = Some ErrTransport \/
  In ErrTransport [ErrURL; ErrTransport; ErrConvert; ErrStorage; ErrConstraint].
Proof.
  apply (run_errors (L := Sample.libs) sample_outage [] empty_db ErrTransport).
  vm_compute. reflexivity.
Defined.

(** * Where a crawl stops *)

Section CrawlStops.
Context {L : Libraries}.

(** A crawl of two lists of projects, one after the other, is the crawl
    of the first followed, when it returned no error, by the crawl of the
    second on the database it left, the requests and the clock counting
    on; when the first returned an error the second is not begun. *)
Theorem crawl_app (w : World) (abs : string -> string) (ps1 ps2 : list Project) :
  forall i db,
    crawl w abs i (ps1 ++ ps2)%list db =
    match crawl w abs i ps1 db with
    | (None, db') => crawl w abs (i + List.length ps1) ps2 db'
    | (Some e, db') => (Some e, db')
    end.
Proof.
  induction ps1 as [|p ps1 IH]; intros i db.
  - cbn [app crawl List.length]. now rewrite Nat.add_0_r.
  - cbn [app crawl List.length].
    destruct (get w (S i) (URL p) [sel_yield]) as [[|sels0 sels]|e];
      try reflexivity.
    destruct (scrape abs p sels0) as [p'|e]; [|reflexivity].
    destruct (upsert_unit (disk w i) p' (Now w i) db) as [[e|] db'];
      [reflexivity |].
    rewrite IH. now rewrite Nat.add_succ_r.
Qed.

Lemma crawl_cons (w : World) (abs : string -> string) (i : nat)
      (p : Project) (ps : list Project) (db : DB) :
  crawl w abs i (p :: ps) db =
  match crawl w abs i [p] db with
  | (None, d) => crawl w abs (S i) ps d
  | (Some e, d) => (Some e, d)
  end.
Proof.
  cbn [crawl].
  destruct (get w (S i) (URL p) [sel_yield]) as [[|sels0 sels]|e];
    try reflexivity.
  destruct (scrape abs p sels0) as [p'|e]; [|reflexivity].
  now destruct (upsert_unit (disk w i) p' (Now w i) db) as [[e|] db'].
Qed.

Lemma crawl_one_failed (w : World) (abs : string -> string) (i : nat)
      (p : Project) (db db' : DB) (e : error) :
  crawl w abs i [p] db = (Some e, db') -> db' = db.
Proof.
  cbn [crawl].
  destruct (get w (S i) (URL p) [sel_yield]) as [[|sels0 sels]|e0];
    try congruence.
  destruct (scrape abs p sels0) as [p'|e0]; [|congruence].
  destruct (upsert_unit (disk w i) p' (Now w i) db) as [[e0|] d] eqn:Eu;
    [|discriminate].
  apply upsert_unit_failed in Eu. congruence.
Qed.

(** A crawl that returns an error has stopped at one project: the
    projects before it were crawled without error, the project itself
    left the database as it found it, and the database returned is that
    one; the projects after it were not begun. *)
Theorem crawl_stops (w : World) (abs : string -> string) (ps : list Project) :
  forall i db e,
    fst (crawl w abs i ps db) = Some e ->
    exists ps1 p ps2 db1,
      ps = (ps1 ++ p :: ps2)%list /\
      crawl w abs i ps1 db = (None, db1) /\
      crawl w abs (i + List.length ps1) [p] db1 = (Some e, db1) /\
      crawl w abs i ps db = (Some e, db1).
Proof.
  induction ps as [|p ps IH]; intros i db e H; [discriminate |].
  rewrite crawl_cons in H |- *.
  destruct (crawl w abs i [p] db) as [[e1|] d1] eqn:E1.
  - pose proof (crawl_one_failed _ _ _ _ _ _ _ E1) as ->.
    injection H as <-.
    exists [], p, ps, db. cbn [app List.length].
    rewrite Nat.add_0_r, E1. repeat split; reflexivity.
  - destruct (IH _ _ _ H) as [ps1 [q [ps2 [db1 [-> [Hc1 [Hq Hall]]]]]]].
    exists (p :: ps1), q, ps2, db1.
    split; [reflexivity |]. split; [| split].
    + now rewrite crawl_cons, E1.
    + cbn [List.length]. rewrite Nat.add_succ_r. exact Hq.
    + exact Hall.
Qed.
End CrawlStops.

Lemma crawl_stops_witness :
  exists ps1 p ps2 db1,
    discover (abs (L := Sample.libs) projects_page) []
      (found_in sel_project_tile (top sample_projects_page))
    = (ps1 ++ p :: ps2)%list /\
    crawl (L := Sample.libs) sample_outage (abs (L := Sample.libs) projects_page)
      0 ps1 empty_db = (None, db1) /\
    crawl (L := Sample.libs) sample_outage (abs (L := Sample.libs) projects_page)
      (0 + List.length ps1) [p] db1 = (Some ErrTransport, db1) /\
    crawl (L := Sample.libs) sample_outage (abs (L := Sample.libs) projects_page)
      0 (discover (abs (L := Sample.libs) projects_page) []
           (found_in sel_project_tile (top sample_projects_page))) empty_db
    = (Some ErrTransport, db1).
Proof.
  apply (crawl_stops (L := Sample.libs) sample_outage
           (abs (L := Sample.libs) projects_page)
           (discover (abs (L := Sample.libs) projects_page) []
              (found_in sel_project_tile (top sample_projects_page)))
           0%nat empty_db ErrTransport).
  vm_compute. reflexivity.
Defined.

(** * Units fail only with the storage *)

(** On a consistent database the three statements cannot fail: a unit
    that returns an error returns the error of the storage, a call of the
    transaction did fail, and the database is as before.  Replacing the
    row of a sum or of a URL that observations refer to does not trip
    the foreign keys. *)
Theorem upsert_unit_error_is_storage (fault : step -> bool) (p : Project)
        (now : Z) (db db' : DB) (e : error) :
  wf db ->
  upsert_unit fault p now db = (Some e, db') ->
  e = ErrStorage /\ (exists st, fault st = true) /\ db' = db.
Proof.
  intros Hwf E.
  destruct (insert_or_replace_contents_ok (HTMLSum p) (HTML p) (Markdown p) db Hwf)
    as [d1 H1].
  pose proof (wf_insert_or_replace_contents _ _ _ _ _ Hwf H1) as Hwf1.
  destruct (insert_or_replace_projects_ok (URL p) (Title p) (State p) d1 Hwf1)
    as [d2 H2].
  pose proof (observations_appended (URL p) now (HTMLSum p) d2) as H3.
  pose proof (upsert_unit_failed _ _ _ _ _ _ E) as ->.
  rewrite upsert_unit_unfold, H1, H2, H3 in E.
  destruct (fault Begin) eqn:F0; [injection E as <-; eauto |].
  destruct (fault ExecContents) eqn:F1; [injection E as <-; eauto |].
  destruct (fault ExecProjects) eqn:F2; [injection E as <-; eauto |].
  destruct (fault ExecObservations) eqn:F3; [injection E as <-; eauto |].
  destruct (fault Commit) eqn:F4; [injection E as <-; eauto | discriminate].
Qed.

Lemma upsert_unit_error_is_storage_witness :
  ErrStorage = ErrStorage /\
  (exists st, Sample.fail_at ExecProjects st = true) /\
  Sample.db1 = Sample.db1.
Proof.
  apply (upsert_unit_error_is_storage (Sample.fail_at ExecProjects) Sample.pB 11
           Sample.db1 Sample.db1 ErrStorage wf_sample_db1).
  reflexivity.
Defined.

(** * What a run never loses *)

Lemma extends_refl (db : DB) : extends db db.
Proof.
  split; [auto |]. split; [auto |]. exists []. now rewrite app_nil_r.
Qed.

Lemma extends_trans (a b c : DB) : extends a b -> extends b c -> extends a c.
Proof.
  intros [Hc1 [Hp1 [x1 Ho1]]] [Hc2 [Hp2 [x2 Ho2]]].
  split; [auto |]. split; [auto |].
  exists (x1 ++ x2)%list. now rewrite Ho2, Ho1, app_assoc.
Qed.

Lemma extends_upsert_unit (fault : step -> bool) (p : Project) (now : Z)
      (db : DB) :
  wf db -> extends db (snd (upsert_unit fault p now db)).
Proof.
  intros Hwf.
  destruct (upsert_unit fault p now db) as [[e|] db'] eqn:E; simpl.
  - apply upsert_unit_failed in E. subst. apply extends_refl.
  - destruct (upsert_unit_rows _ _ _ _ _ Hwf E)
      as [i [j [Hwf' [Hc [Hp [Hsel [Hid Hobs]]]]]]].
    apply upsert_unit_succeeded in E as [_ [d1 [d2 [H1 [H2 H3]]]]].
    split; [| split].
    + intros h k Hk.
      destruct (insert_or_replace_contents_row (HTMLSum p) (HTML p) (Markdown p)
                  db Hwf) as [d1' [i' [Hd1 [Hwf1 [Hin1 [Hid1 [Hkeep1 _]]]]]]].
      rewrite H1 in Hd1. injection Hd1 as <-.
      destruct (insert_or_replace_projects_frame _ _ _ _ _ H2) as [Hc2 _].
      rewrite observations_appended in H3. injection H3 as <-.
      unfold select_contents_id at 1. simpl. rewrite Hc2.
      fold (select_contents_id h d1).
      destruct (select_contents_in _ _ _ Hk) as [r [Hr [Hh Hi]]].
      destruct (String.eqb_spec (c_hash r) (HTMLSum p)) as [Heq | Hne].
      * assert (i' = k) by (apply Hid1; congruence). subst i' h.
        rewrite Heq.
        apply (select_contents_unique d1 _ Hwf1 Hin1).
      * subst h k. apply (select_contents_unique d1 r Hwf1).
        now apply Hkeep1.
    + intros u k Hk. rewrite Hsel.
      destruct (String.eqb_spec (URL p) u) as [<- | Hne]; [|assumption].
      rewrite Hk in Hid. now subst.
    + eexists. exact Hobs.
Qed.

Section Keeps.
Context {L : Libraries}.

Lemma extends_crawl (w : World) (abs : string -> string) (projects : list Project) :
  forall i db, wf db -> extends db (snd (crawl w abs i projects db)).
Proof.
  induction projects as [|p rest IH]; intros i db Hwf; cbn [crawl].
  - apply extends_refl.
  - destruct (get w (S i) (URL p) [sel_yield]) as [[|sels0 sels]|e];
      try apply extends_refl.
    destruct (scrape abs p sels0) as [p'|e]; [|apply extends_refl].
    pose proof (extends_upsert_unit (disk w i) p' (Now w i) db Hwf) as He.
    pose proof (wf_upsert_unit (disk w i) p' (Now w i) db Hwf) as Hw.
    destruct (upsert_unit (disk w i) p' (Now w i) db) as [[e|] db'];
      simpl in *; [assumption |].
    eapply extends_trans; [exact He | now apply IH].
Qed.

(** A run removes nothing and renumbers nothing: whatever its outcome,
    every sum and every URL that had a row has one under the same rowid
    afterwards, and the log afterwards is the log before with rows added
    at its end. *)
Theorem run_extends (w : World) (onlyURLs : list string) (db : DB) :
  wf db -> extends db (snd (run w onlyURLs db)).
Proof.
  intros Hwf. unfold run.
  destruct (setup w); [apply extends_refl |].
  destruct (url_Parse projects_page); [|apply extends_refl].
  destruct (get w 0 projects_page [sel_project_tile]) as [[|tiles sels]|e];
    try apply extends_refl.
  now apply extends_crawl.
Qed.
End Keeps.

Lemma run_extends_witness :
  extends Sample.db1 (snd (run (L := Sample.libs) sample_crawl [] Sample.db1)).
Proof.
  apply (run_extends (L := Sample.libs) sample_crawl [] Sample.db1 wf_sample_db1).
Defined.

Lemma wf_run_witness :
  wf (snd (run (L := Sample.libs) sample_crawl [] Sample.db1)).
Proof.
  apply (wf_run (L := Sample.libs) sample_crawl [] Sample.db1 wf_sample_db1).
Defined.

(** * Crawling again *)

Lemma select_projects_id_of (db : DB) (r : projects_row) :
  wf db -> In r (projects db) -> select_projects_id (p_url r) db = Some (p_id r).
Proof.
  intros Hwf Hr. unfold select_projects_id.
  rewrite (proj2 (find_unique _ p_url (p_url r) r (projects db) (wf_url db Hwf)));
    [reflexivity | now split].
Qed.

Lemma insert_or_replace_projects_again (i : Z) (url title state : string) (db : DB) :
  wf db -> In (new_project i url title state) (projects db) ->
  insert_or_replace_projects url title state db = OK db.
Proof.
  intros Hwf Hin.
  assert (Ef : find (fun r => String.eqb (p_url r) url) (projects db)
               = Some (new_project i url title state)).
  { apply (find_unique _ p_url); [apply Hwf | now split]. }
  destruct (projects_found url title state db _ Hwf Ef) as [d [Hd [Hp [Hc Ho]]]].
  rewrite Hd. f_equal. simpl in Hp.
  rewrite (put_row_same _ p_id) in Hp; [| apply Hwf | assumption].
  destruct d, db; simpl in *; congruence.
Qed.

(** A project crawled again with the same title, state and page body: the
    second unit leaves the contents and the projects tables exactly as the
    first left them and adds one observation, which refers to the same
    project row and the same contents row as the one the first added. *)
Theorem upsert_unit_again (f1 f2 : step -> bool) (p : Project) (t1 t2 : Z)
        (db d1 d2 : DB) :
  wf db ->
  upsert_unit f1 p t1 db = (None, d1) ->
  upsert_unit f2 p t2 d1 = (None, d2) ->
  contents d2 = contents d1 /\
  projects d2 = projects d1 /\
  exists k1 k2 j i,
    project_observations d1 =
      (project_observations db ++ [new_observation k1 j t1 i])%list /\
    project_observations d2 =
      (project_observations d1 ++ [new_observation k2 j t2 i])%list /\
    k1 < k2.
Proof.
  intros Hwf E1 E2.
  destruct (upsert_unit_rows _ _ _ _ _ Hwf E1)
    as [i [j [Hwf1 [Hc [Hp [_ [_ Ho1]]]]]]].
  apply upsert_unit_succeeded in E2 as [_ [a [b [H1 [H2 H3]]]]].
  rewrite (insert_or_replace_contents_again i) in H1; [| assumption | assumption].
  injection H1 as <-.
  rewrite (insert_or_replace_projects_again j) in H2; [| assumption | assumption].
  injection H2 as <-.
  rewrite observations_appended in H3. injection H3 as <-. simpl.
  split; [reflexivity |]. split; [reflexivity |].
  exists (next_rowid o_id (project_observations db)),
         (next_rowid o_id (project_observations d1)), j, i.
  split; [exact Ho1 |]. split.
  - change (URL p) with (p_url (new_project j (URL p) (Title p) (State p))).
    rewrite (select_projects_id_of d1 _ Hwf1 Hp).
    change (HTMLSum p) with
      (c_hash (new_content i (HTMLSum p) (HTML p) (Markdown p))).
    rewrite (select_contents_unique d1 _ Hwf1 Hc). reflexivity.
  - apply (next_rowid_above _ o_id (project_observations d1)
             (new_observation (next_rowid o_id (project_observations db)) j t1 i)).
    rewrite Ho1. apply in_app_iff. right. now left.
Qed.

(** * Failed units, shared pages and the size of the tables *)

(** A unit that meets a fault of the storage leaves no trace in what
    follows: a sequence of units with such a unit in it ends in the same
    database, with the same count, as the sequence without it. *)
Theorem run_units_skip_failed (u : string) (us1 us2 : list unit_call)
        (c : unit_call) :
  (exists st, u_fault c st = true) ->
  forall db,
    run_units u (us1 ++ c :: us2)%list db = run_units u (us1 ++ us2)%list db.
Proof.
  intros [st Hst]. induction us1 as [|a us1 IH]; intros db.
  - cbn [app run_units].
    destruct (upsert_unit_fault (u_fault c) (u_project c) (u_now c) db st Hst)
      as [e He].
    rewrite He. now destruct (run_units u us2 db).
  - cbn [app run_units].
    destruct (upsert_unit (u_fault a) (u_project a) (u_now a) db) as [e d].
    now rewrite IH.
Qed.

Lemma run_units_skip_failed_witness :
  run_units "u1"
    ([ {| u_fault := no_fault; u_project := Sample.pA; u_now := 11 |} ]
     ++ {| u_fault := Sample.fail_at Commit; u_project := Sample.pB; u_now := 12 |}
     :: [ {| u_fault := no_fault; u_project := Sample.pC; u_now := 13 |} ])%list
    Sample.db1
  = run_units "u1"
      ([ {| u_fault := no_fault; u_project := Sample.pA; u_now := 11 |} ]
       ++ [ {| u_fault := no_fault; u_project := Sample.pC; u_now := 13 |} ])%list
      Sample.db1.
Proof.
  apply (run_units_skip_failed "u1"
           [ {| u_fault := no_fault; u_project := Sample.pA; u_now := 11 |} ]
           [ {| u_fault := no_fault; u_project := Sample.pC; u_now := 13 |} ]
           {| u_fault := Sample.fail_at Commit; u_project := Sample.pB; u_now := 12 |}).
  exists Commit. reflexivity.
Defined.

(** The tables grow by what is new and by nothing else: a unit that
    returns no error adds a contents row exactly when the sum had none, a
    projects row exactly when the URL had none, and always one
    observation. *)
Theorem upsert_unit_growth (fault : step -> bool) (p : Project) (now : Z)
        (db db' : DB) :
  wf db -> upsert_unit fault p now db = (None, db') ->
  List.length (contents db') =
    (List.length (contents db)
     + match select_contents_id (HTMLSum p) db with
       | Some _ => 0
       | None => 1
       end)%nat /\
  List.length (projects db') =
    (List.length (projects db)
     + match select_projects_id (URL p) db with
       | Some _ => 0
       | None => 1
       end)%nat /\
  List.length (project_observations db') =
    S (List.length (project_observations db)).
Proof.
  intros Hwf E.
  apply upsert_unit_succeeded in E as [_ [d1 [d2 [H1 [H2 H3]]]]].
  pose proof (wf_insert_or_replace_contents _ _ _ _ _ Hwf H1) as Hwf1.
  destruct (insert_or_replace_contents_frame _ _ _ _ _ H1) as [Hp1 [Ho1 _]].
  destruct (insert_or_replace_projects_frame _ _ _ _ _ H2) as [Hc2 [Ho2 _]].
  rewrite observations_appended in H3. injection H3 as <-. simpl.
  rewrite Hc2, Ho2, Ho1, length_app. simpl.
  split; [| split; [| lia]].
  - unfold select_contents_id.
    destruct (find _ (contents db)) as [r|] eqn:Ef; simpl.
    + destruct (contents_found _ (HTML p) (Markdown p) _ _ Hwf Ef)
        as [d [Hd [Hc _]]].
      rewrite H1 in Hd. injection Hd as <-. rewrite Hc.
      unfold put_row. rewrite length_map. lia.
    + destruct (contents_fresh _ (HTML p) (Markdown p) _ Ef) as [d [Hd [Hc _]]].
      rewrite H1 in Hd. injection Hd as <-. rewrite Hc, length_app. reflexivity.
  - unfold select_projects_id. rewrite <- Hp1.
    destruct (find _ (projects d1)) as [r|] eqn:Ef; simpl.
    + destruct (projects_found _ (Title p) (State p) _ _ Hwf1 Ef)
        as [d [Hd [Hp _]]].
      rewrite H2 in Hd. injection Hd as <-. rewrite Hp.
      unfold put_row. rewrite length_map. lia.
    + destruct (projects_fresh _ (Title p) (State p) _ Ef) as [d [Hd [Hp _]]].
      rewrite H2 in Hd. injection Hd as <-. rewrite Hp, length_app. reflexivity.
Qed.

Lemma upsert_unit_growth_witness :
  List.length (contents (snd (upsert_unit no_fault Sample.pC 13 Sample.db1))) =
    (List.length (contents Sample.db1)
     + match select_contents_id (HTMLSum Sample.pC) Sample.db1 with
       | Some _ => 0
       | None => 1
       end)%nat /\
  List.length (projects (snd (upsert_unit no_fault Sample.pC 13 Sample.db1))) =
    (List.length (projects Sample.db1)
     + match select_projects_id (URL Sample.pC) Sample.db1 with
       | Some _ => 0
       | None => 1
       end)%nat /\
  List.length (project_observations
                 (snd (upsert_unit no_fault Sample.pC 13 Sample.db1))) =
    S (List.length (project_observations Sample.db1)).
Proof.
  apply (upsert_unit_growth no_fault Sample.pC 13 Sample.db1 _ wf_sample_db1).
  reflexivity.
Defined.

(** Two projects whose pages have the same sum share one contents row:
    after a unit for each, the sum has a single row, no row was added for
    the second, and both observations refer to that row. *)
Theorem shared_contents (f1 f2 : step -> bool) (p1 p2 : Project) (t1 t2 : Z)
        (db d1 d2 : DB) :
  wf db ->
  upsert_unit f1 p1 t1 db = (None, d1) ->
  upsert_unit f2 p2 t2 d1 = (None, d2) ->
  HTMLSum p2 = HTMLSum p1 ->
  exists c o1 o2,
    contents_of (HTMLSum p1) d2 = [c] /\
    List.length (contents d2) = List.length (contents d1) /\
    project_observations d2 = (project_observations db ++ [o1; o2])%list /\
    o_content_id o1 = Some (c_id c) /\
    o_content_id o2 = Some (c_id c).
Proof.
  intros Hwf E1 E2 Hsum.
  destruct (upsert_unit_rows _ _ _ _ _ Hwf E1)
    as [i1 [j1 [Hwf1 [Hc1 [_ [_ [_ Ho1]]]]]]].
  destruct (upsert_unit_rows _ _ _ _ _ Hwf1 E2)
    as [i2 [j2 [Hwf2 [Hc2 [_ [_ [_ Ho2]]]]]]].
  pose proof (select_contents_unique d1 _ Hwf1 Hc1) as Hs1. simpl in Hs1.
  pose proof (select_contents_unique d2 _ Hwf2 Hc2) as Hs2. simpl in Hs2.
  pose proof (extends_upsert_unit f2 p2 t2 d1 Hwf1) as Hext.
  rewrite E2 in Hext. simpl in Hext. destruct Hext as [Hkeep _].
  apply Hkeep in Hs1. rewrite Hsum in Hs2. rewrite Hs1 in Hs2.
  injection Hs2 as <-.
  assert (Hlen : List.length (contents d2) = List.length (contents d1)).
  { pose proof E2 as E2'.
    apply upsert_unit_succeeded in E2' as [_ [a [b [H1 [H2 H3]]]]].
    destruct (insert_or_replace_projects_frame _ _ _ _ _ H2) as [Hcb _].
    rewrite observations_appended in H3. injection H3 as <-. simpl.
    rewrite Hcb.
    assert (Ef : find (fun r => String.eqb (c_hash r) (HTMLSum p2)) (contents d1)
                 = Some (new_content i1 (HTMLSum p1) (HTML p1) (Markdown p1))).
    { apply (find_unique _ c_hash); [apply Hwf1 | split; [exact Hc1 | now simpl]]. }
    destruct (contents_found _ (HTML p2) (Markdown p2) _ _ Hwf1 Ef)
      as [d [Hd [Hc _]]].
    rewrite H1 in Hd. injection Hd as <-. rewrite Hc.
    unfold put_row. now rewrite length_map. }
  exists (new_content i1 (HTMLSum p2) (HTML p2) (Markdown p2)). do 2 eexists.
  split; [| split; [| split; [| split]]].
  - unfold contents_of. rewrite <- Hsum.
    apply (filter_unique _ c_hash); [apply Hwf2 | exact Hc2 | reflexivity].
  - exact Hlen.
  - rewrite Ho2, Ho1, <- app_assoc. reflexivity.
  - reflexivity.
  - reflexivity.
Qed.

Lemma shared_contents_witness :
  exists c o1 o2,
    contents_of (HTMLSum Sample.pA)
      (snd (upsert_unit no_fault Sample.pC 11
              (snd (upsert_unit no_fault Sample.pA 10 empty_db)))) = [c] /\
    List.length (contents (snd (upsert_unit no_fault Sample.pC 11
                                  (snd (upsert_unit no_fault Sample.pA 10 empty_db)))))
    = List.length (contents (snd (upsert_unit no_fault Sample.pA 10 empty_db))) /\
    project_observations (snd (upsert_unit no_fault Sample.pC 11
                                 (snd (upsert_unit no_fault Sample.pA 10 empty_db))))
    = (project_observations empty_db ++ [o1; o2])%list /\
    o_content_id o1 = Some (c_id c) /\
    o_content_id o2 = Some (c_id c).
Proof.
  apply (shared_contents no_fault no_fault Sample.pA Sample.pC 10 11 empty_db
           _ _ wf_empty_db); reflexivity.
Defined.

(** * What is cut from a page stays cut *)

Lemma subtree_descendants (n : node) : subtree n = n :: descendants n.
Proof. destruct n; reflexivity. Qed.

Lemma matches_prune (s : selector) (m : node -> bool) (n : node) :
  matches s (prune m n) = matches s n.
Proof. destruct n; reflexivity. Qed.

Lemma Find_Remove_prune (s : selector) (sel : Selection) :
  Find_Remove s sel = map (prune (matches s)) sel.
Proof.
  unfold Find_Remove. apply map_ext. intros [d | d | t a kids]; reflexivity.
Qed.

Lemma filter_none {A} (f : A -> bool) (l : list A) :
  Forall (fun x => f x = false) l -> filter f l = [].
Proof.
  induction 1 as [|x l Hx _ IH]; simpl; [reflexivity |]. now rewrite Hx.
Qed.

Lemma found_in_filter (s : selector) (l : list node) :
  found_in s l = filter (matches s) (flat_map subtree l).
Proof.
  unfold found_in. induction l as [|k l IH]; simpl; [reflexivity |].
  now rewrite filter_app, IH.
Qed.

Lemma clean_Find (s : selector) (sel : Selection) :
  Forall (clean s) sel -> Find s sel = [].
Proof.
  induction 1 as [|r sel Hr _ IH]; [reflexivity |].
  unfold Find in *. cbn [flat_map]. rewrite IH, app_nil_r.
  rewrite found_in_filter. now apply filter_none.
Qed.

Lemma Forall_subtrees (Q : node -> Prop) (kids : list node) :
  Forall Q (flat_map subtree kids) <-> Forall (fun k => Forall Q (subtree k)) kids.
Proof.
  induction kids as [|k kids IH]; simpl.
  - split; constructor.
  - rewrite Forall_app, IH. split.
    + intros [H1 H2]. now constructor.
    + intros H. inversion H; subst. now split.
Qed.

(** The children that [prune] keeps, and what lies below them. *)
Lemma pruned_kids (Q : node -> Prop) (m : node -> bool) (kids : list node) :
  Forall (fun k => m k = false -> Forall Q (subtree (prune m k))) kids ->
  Forall Q (flat_map subtree
              (flat_map (fun k => if m k then [] else [prune m k]) kids)).
Proof.
  induction 1 as [|k kids Hk _ IH]; simpl; [constructor |].
  destruct (m k) eqn:E; simpl; [exact IH |].
  apply Forall_app. split; [now apply Hk | exact IH].
Qed.

(** After [Find(s).Remove()] nothing that [s] matches is left below. *)
Lemma clean_prune_same (s : selector) (n : node) :
  clean s (prune (matches s) n).
Proof.
  induction n as [d | d | t a kids IH] using node_induction;
    try (unfold clean; constructor).
  unfold clean, descendants. cbn [prune children].
  apply pruned_kids. apply Forall_forall. intros k Hk Hm.
  rewrite subtree_descendants. constructor.
  - now rewrite matches_prune.
  - rewrite Forall_forall in IH. now apply IH.
Qed.

(** Cutting other nodes brings back nothing that [s] matches. *)
Lemma clear_prune (s : selector) (m : node -> bool) (n : node) :
  Forall (fun d => matches s d = false) (subtree n) ->
  Forall (fun d => matches s d = false) (subtree (prune m n)).
Proof.
  induction n as [d | d | t a kids IH] using node_induction; try (intros H; exact H).
  rewrite !subtree_descendants. intros H. inversion H as [|? ? Hn Hd]; subst.
  constructor; [exact Hn |].
  unfold descendants in *. cbn [prune children] in *.
  apply Forall_subtrees in Hd.
  apply pruned_kids. rewrite Forall_forall in *. intros k Hk _.
  apply IH; [assumption | now apply Hd].
Qed.

Lemma clean_prune (s : selector) (m : node -> bool) (n : node) :
  clean s n -> clean s (prune m n).
Proof.
  destruct n as [d | d | t a kids]; try (intros H; exact H).
  unfold clean, descendants. cbn [prune children]. intros H.
  apply Forall_subtrees in H.
  apply pruned_kids. rewrite Forall_forall in *. intros k Hk _.
  apply clear_prune. now apply H.
Qed.

Lemma Forall2_Forall {A} (R : A -> A -> Prop) (Q : A -> Prop) (l l' : list A) :
  (forall d d', R d d' -> Q d -> Q d') ->
  Forall2 R l l' -> Forall Q l -> Forall Q l'.
Proof.
  intros HR H. induction H as [|d d' l l' Hd _ IH]; intros HQ; [constructor |].
  inversion HQ; subst. constructor; [eapply HR; eassumption | now apply IH].
Qed.

Lemma touched_clear (s s' : selector)
      (f : list (string * string) -> list (string * string)) (d d' : node) :
  (forall t a, matches_attrs s t a = false -> matches_attrs s t (f a) = false) ->
  touched (matches s') f d d' -> matches s d = false -> matches s d' = false.
Proof.
  intros Hf.
  destruct d as [x | x | t a ks], d' as [x' | x' | t' a' ks']; simpl;
    try tauto.
  intros [-> ->] H. destruct (matches_attrs s' t a); [now apply Hf | exact H].
Qed.

(** A loop that changes attributes, by a change that makes nothing match
    [s], leaves nothing that [s] matches. *)
Lemma clean_Find_Each (s s' : selector)
      (f : list (string * string) -> list (string * string)) (sel : Selection) :
  (forall t a, matches_attrs s t a = false -> matches_attrs s t (f a) = false) ->
  Forall (clean s) sel -> Forall (clean s) (Find_Each s' f sel).
Proof.
  intros Hf.
  apply (Forall2_Forall
           (fun r r' => Forall2 (touched (matches s') f)
                                (descendants r) (descendants r'))).
  - intros r r' H. unfold clean.
    apply (Forall2_Forall (touched (matches s') f)); [| exact H].
    intros d d'. now apply touched_clear.
  - apply descendants_Find_Each.
Qed.

Lemma in_remove_attr (k : string) (a : list (string * string))
      (kv : string * string) :
  In kv (remove_attr k a) -> In kv a.
Proof.
  induction a as [|[k' v'] a IH]; simpl; [tauto |].
  destruct (String.eqb k' k).
  - destruct a as [|x a]; [tauto |]. intros H. right.
    rewrite (app_removelast_last (k', v') (l := x :: a)) by discriminate.
    apply in_app_iff. destruct H as [<- | H]; [right; now left | now left].
  - intros [<- | H]; [now left | right; now apply IH].
Qed.

Lemma any_attr_incl (k : string) (f : string -> bool)
      (a a' : list (string * string)) :
  (forall kv, In kv a' -> In kv a) ->
  any_attr k f a' = true -> any_attr k f a = true.
Proof.
  intros Hin. unfold any_attr. rewrite !existsb_exists.
  intros [kv [H1 H2]]. exists kv. split; [now apply Hin | exact H2].
Qed.

Lemma matches_attrs_incl (s : selector) (t : string)
      (a a' : list (string * string)) :
  (forall kv, In kv a' -> In kv a) ->
  matches_attrs s t a' = true -> matches_attrs s t a = true.
Proof.
  intros Hin. induction s as [t' | i | c | k | k v | s1 IH1 s2 IH2]; simpl;
    try (apply any_attr_incl; assumption); [tauto |].
  rewrite !andb_true_iff. intros [H1 H2]. split; auto.
Qed.

Lemma remove_attr_safe (s : selector) (k t : string) (a : list (string * string)) :
  matches_attrs s t a = false -> matches_attrs s t (remove_attr k a) = false.
Proof.
  intros H. destruct (matches_attrs s t (remove_attr k a)) eqn:E; [|reflexivity].
  apply (matches_attrs_incl s t a) in E; [congruence |].
  intros kv. apply in_remove_attr.
Qed.

Lemma any_attr_set_attr (k k' v : string) (f : string -> bool)
      (a : list (string * string)) :
  k <> k' -> any_attr k f (set_attr k' v a) = any_attr k f a.
Proof.
  intros Hne. induction a as [|[k0 v0] a IH]; simpl.
  - apply not_eq_sym in Hne. apply String.eqb_neq in Hne. now rewrite Hne.
  - destruct (String.eqb_spec k0 k') as [-> | E]; simpl.
    + apply not_eq_sym in Hne. apply String.eqb_neq in Hne. now rewrite Hne.
    + now rewrite IH.
Qed.

Lemma set_attr_safe (s : selector) (k' v t : string) (a : list (string * string)) :
  ~ In k' (keys_of s) ->
  matches_attrs s t (set_attr k' v a) = matches_attrs s t a.
Proof.
  induction s as [t' | i | c | k | k v0 | s1 IH1 s2 IH2];
    cbn [matches_attrs keys_of]; intros H.
  - reflexivity.
  - apply any_attr_set_attr. intros <-. apply H. now left.
  - apply any_attr_set_attr. intros <-. apply H. now left.
  - apply any_attr_set_attr. intros <-. apply H. now left.
  - apply any_attr_set_attr. intros <-. apply H. now left.
  - rewrite in_app_iff in H. rewrite IH1, IH2; tauto.
Qed.

Lemma removes_keys (s : selector) :
  In s removes -> ~ In "href" (keys_of s) /\ ~ In "src" (keys_of s).
Proof.
  unfold removes. simpl.
  intros H; repeat destruct H as [<- | H]; try contradiction;
    simpl; split; intuition discriminate.
Qed.

Lemma clean_removes (s : selector) (l : list selector) :
  forall sel,
    (In s l \/ Forall (clean s) sel) ->
    Forall (clean s) (fold_left (fun sel s' => Find_Remove s' sel) l sel).
Proof.
  induction l as [|s' l IH]; intros sel H; cbn [fold_left].
  - destruct H as [[] | H]. exact H.
  - apply IH. destruct H as [[-> | H] | H].
    + right. rewrite Find_Remove_prune. apply Forall_forall.
      intros r Hr. apply in_map_iff in Hr as [r0 [<- _]].
      apply clean_prune_same.
    + now left.
    + right. rewrite Find_Remove_prune. apply Forall_forall.
      intros r Hr. apply in_map_iff in Hr as [r0 [<- Hr0]].
      apply clean_prune. rewrite Forall_forall in H. now apply H.
Qed.

(** The selection that the title and the page body are taken from has,
    below its nodes, no element that one of the nine selectors of
    [removes] matches: each is cut by its own [Remove], and neither the
    later cuts, nor taking [id] from inputs and [for] from labels, nor
    the rewriting of [href] and [src] brings one back. *)
Theorem scrape_removes_all (abs : string -> string) (sels0 : Selection)
        (s : selector) :
  In s removes -> Find s (absolutize abs (strip sels0)) = [].
Proof.
  intros Hs. apply clean_Find.
  destruct (removes_keys s Hs) as [Hhref Hsrc].
  unfold absolutize, strip.
  apply clean_Find_Each; [intros t a H; now rewrite set_attr_safe |].
  apply clean_Find_Each; [intros t a H; now rewrite set_attr_safe |].
  apply clean_Find_Each; [intros t a; apply remove_attr_safe |].
  apply clean_Find_Each; [intros t a; apply remove_attr_safe |].
  apply clean_removes. now left.
Qed.

Lemma scrape_removes_all_witness :
  Find (ByTag "script")
       (absolutize (abs (L := Sample.libs) projects_page) (strip [sample_yield]))
  = [].
Proof.
  apply (scrape_removes_all (abs (L := Sample.libs) projects_page)
           [sample_yield] (ByTag "script")).
  unfold removes. simpl. tauto.
Defined.

(** * What a unit leaves alone *)

(** A unit that returns no error touches only the row of its own sum and
    the row of its own URL: the contents rows of other sums and the
    projects rows of other URLs are the same before and after. *)
Theorem upsert_unit_frame (fault : step -> bool) (p : Project) (now : Z)
        (db db' : DB) :
  wf db -> upsert_unit fault p now db = (None, db') ->
  (forall c, c_hash c <> HTMLSum p ->
             (In c (contents db') <-> In c (contents db))) /\
  (forall r, p_url r <> URL p ->
             (In r (projects db') <-> In r (projects db))).
Proof.
  intros Hwf E.
  apply upsert_unit_succeeded in E as [_ [d1 [d2 [H1 [H2 H3]]]]].
  pose proof (wf_insert_or_replace_contents _ _ _ _ _ Hwf H1) as Hwf1.
  destruct (insert_or_replace_contents_frame _ _ _ _ _ H1) as [Hp1 _].
  destruct (insert_or_replace_projects_frame _ _ _ _ _ H2) as [Hc2 _].
  rewrite observations_appended in H3. injection H3 as <-. simpl.
  rewrite Hc2. split.
  - intros c Hne. split.
    + unfold insert_or_replace_contents in H1.
      destruct (parents_kept _ _ _); [|discriminate].
      injection H1 as <-. simpl. intros Hc.
      apply in_insert_or_replace in Hc as [-> | Hc]; [now simpl in Hne | exact Hc].
    + intros Hc.
      destruct (insert_or_replace_contents_row (HTMLSum p) (HTML p) (Markdown p)
                  db Hwf) as [d [i [Hd [_ [_ [_ [Hkeep _]]]]]]].
      rewrite H1 in Hd. injection Hd as <-. now apply Hkeep.
  - intros r Hne.
    destruct (insert_or_replace_projects_row (URL p) (Title p) (State p) d1 Hwf1)
      as [d [j [Hd [_ [_ [_ [_ [_ [_ [Hkeep Hold]]]]]]]]]].
    rewrite H2 in Hd. injection Hd as <-. rewrite <- Hp1. split.
    + intros Hr. apply Hold in Hr as [-> | [Hr _]]; [now simpl in Hne | exact Hr].
    + intros Hr. now apply Hkeep.
Qed.

Lemma upsert_unit_frame_witness :
  (forall c, c_hash c <> HTMLSum Sample.pB ->
             (In c (contents (snd (upsert_unit no_fault Sample.pB 11 Sample.db1)))
              <-> In c (contents Sample.db1))) /\
  (forall r, p_url r <> URL Sample.pB ->
             (In r (projects (snd (upsert_unit no_fault Sample.pB 11 Sample.db1)))
              <-> In r (projects Sample.db1))).
Proof.
  apply (upsert_unit_frame no_fault Sample.pB 11 Sample.db1 _ wf_sample_db1).
  reflexivity.
Defined.

(** * Every observation can be followed *)

Lemma no_null_upsert_unit (fault : step -> bool) (p : Project) (now : Z)
      (db : DB) :
  wf db -> no_null db -> no_null (snd (upsert_unit fault p now db)).
Proof.
  intros Hwf Hn.
  destruct (upsert_unit fault p now db) as [[e|] db'] eqn:E; simpl.
  - apply upsert_unit_failed in E. now subst.
  - destruct (upsert_unit_rows _ _ _ _ _ Hwf E)
      as [i [j [_ [_ [_ [_ [_ Hobs]]]]]]].
    intros o Ho. rewrite Hobs in Ho.
    apply in_app_iff in Ho as [Ho | [<- | []]]; [now apply Hn |].
    simpl. split; discriminate.
Qed.

Section Followed.
Context {L : Libraries}.

Lemma no_null_crawl (w : World) (abs : string -> string) (projects : list Project) :
  forall i db, wf db -> no_null db -> no_null (snd (crawl w abs i projects db)).
Proof.
  induction projects as [|p rest IH]; intros i db Hwf Hn; cbn [crawl];
    [assumption |].
  destruct (get w (S i) (URL p) [sel_yield]) as [[|sels0 sels]|e]; try assumption.
  destruct (scrape abs p sels0) as [p'|e]; [|assumption].
  pose proof (no_null_upsert_unit (disk w i) p' (Now w i) db Hwf Hn) as Hn'.
  pose proof (wf_upsert_unit (disk w i) p' (Now w i) db Hwf) as Hw.
  destruct (upsert_unit (disk w i) p' (Now w i) db) as [[e|] db'];
    simpl in *; [assumption | now apply IH].
Qed.

(** After a run on a database in which every observation names its
    project and its content, every observation, old or new, still does,
    and the rows it names are there: the content a project had at any
    crawl can be read back. *)
Theorem run_observations_resolve (w : World) (onlyURLs : list string) (db : DB) :
  wf db -> no_null db ->
  forall o, In o (project_observations (snd (run w onlyURLs db))) ->
    exists pr c,
      In pr (projects (snd (run w onlyURLs db))) /\
      In c (contents (snd (run w onlyURLs db))) /\
      o_project_id o = Some (p_id pr) /\
      o_content_id o = Some (c_id c).
Proof.
  intros Hwf Hn.
  assert (Hwf' : wf (snd (run w onlyURLs db)) /\ no_null (snd (run w onlyURLs db))).
  { unfold run.
    destruct (setup w); [now split |].
    destruct (url_Parse projects_page); [|now split].
    destruct (get w 0 projects_page [sel_project_tile]) as [[|tiles sels]|e];
      try now split.
    split; [now apply wf_crawl | now apply no_null_crawl]. }
  destruct Hwf' as [Hw Hnn]. intros o Ho.
  destruct (Hnn o Ho) as [Hp Hc].
  destruct (o_project_id o) as [j|] eqn:Ej; [|congruence].
  destruct (o_content_id o) as [i|] eqn:Ei; [|congruence].
  pose proof (wf_project_id _ Hw o j Ho Ej) as Hj.
  pose proof (wf_content_id _ Hw o i Ho Ei) as Hi.
  unfold ids in Hj, Hi.
  apply in_map_iff in Hj as [pr [<- Hpr]].
  apply in_map_iff in Hi as [c [<- Hcc]].
  exists pr, c. auto.
Qed.
End Followed.

Lemma run_observations_resolve_witness :
  exists pr c,
    In pr (projects (snd (run (L := Sample.libs) sample_crawl [] Sample.db1))) /\
    In c (contents (snd (run (L := Sample.libs) sample_crawl [] Sample.db1))) /\
    o_project_id (new_observation 1 1 10 1) = Some (p_id pr) /\
    o_content_id (new_observation 1 1 10 1) = Some (c_id c).
Proof.
  apply (run_observations_resolve (L := Sample.libs) sample_crawl [] Sample.db1
           wf_sample_db1).
  - intros o [<- | []]. simpl. split; discriminate.
  - vm_compute. left. reflexivity.
Defined.

Lemma upsert_unit_again_witness :
  contents (snd (upsert_unit no_fault Sample.pA 11 Sample.db1))
  = contents Sample.db1 /\
  projects (snd (upsert_unit no_fault Sample.pA 11 Sample.db1))
  = projects Sample.db1 /\
  exists k1 k2 j i,
    project_observations Sample.db1 =
      (project_observations empty_db ++ [new_observation k1 j 10 i])%list /\
    project_observations (snd (upsert_unit no_fault Sample.pA 11 Sample.db1)) =
      (project_observations Sample.db1 ++ [new_observation k2 j 11 i])%list /\
    k1 < k2.
Proof.
  apply (upsert_unit_again no_fault no_fault Sample.pA 10 11 empty_db
           Sample.db1 _ wf_empty_db); reflexivity.
Defined.
